(** * goture: futures over cancellation contexts

    A shallow embedding of [goture.go] and [helper.go].  Goroutines are
    modelled as small program counters, the scheduler as a list of actions
    (which thread takes its next step), and a [context.Context] obtained from
    [context.WithCancelCause] as a write-once cause slot. *)

From stdpp Require Import base list strings pretty.
From Stdlib Require Import ZArith Lia.

Open Scope string_scope.
Open Scope list_scope.

(** ** Values of the Go [error] interface *)

(** The dynamic values an [error] interface can hold.  [SuccessResult] is the
    exported struct of [goture.go]; [Canceled] and [DeadlineExceeded] are the
    two sentinels of package [context]; [ErrorString] is what [errors.New] and
    [fmt.Errorf] (without [%w]) build; [UserError] stands for any other
    caller-defined error type, told apart by [type_id].  An [ErrorString]
    stands for its text: which of several [*errorString] values with one text
    it is (their addresses differ in Go) is not recorded, so statements below
    about formatted errors speak of their text only. *)
Inductive err : Type :=
  | SuccessResult
  | Canceled
  | DeadlineExceeded
  | ErrorString (msg : string)
  | UserError (type_id : nat) (msg : string).

(** An interface value of type [error]; [None] is Go's [nil]. *)
Abbreviation error := (option err) (only parsing).

(** [func (s SuccessResult) Error() string] *)
Definition SuccessResult_Error : string := "".

(** The type assertion [cause.(SuccessResult)] of [Wait]. *)
Definition is_SuccessResult (cause : err) : bool :=
  match cause with
  | SuccessResult => true
  | _ => false
  end.

(** ** Values of [interface{}] handed to [panic]

    [recover()] returns the value given to [panic]; since Go 1.21 that value is
    never nil ([panic(nil)] is turned into a [*runtime.PanicNilError], which is
    an error and is covered by [AnyError]).  [AnyOther] is a value of any
    other dynamic type (a slice, a struct, a [Stringer], ...), given by its
    type and by the text [fmt] prints for it under [%v]; two different values
    of one type may print alike. *)
Inductive any : Type :=
  | AnyError (e : err)
  | AnyString (s : string)
  | AnyInt (z : Z)
  | AnyBool (b : bool)
  | AnyOther (type_id : nat) (text : string).

(** [fmt.Sprintf("%v", r)] on the payloads above. *)
Definition err_message (e : err) : string :=
  match e with
  | SuccessResult => SuccessResult_Error
  | Canceled => "context canceled"
  | DeadlineExceeded => "context deadline exceeded"
  | ErrorString msg => msg
  | UserError _ msg => msg
  end.

Definition fmt_v (r : any) : string :=
  match r with
  | AnyError e => err_message e
  | AnyString s => s
  | AnyInt z => pretty z
  | AnyBool true => "true"
  | AnyBool false => "false"
  | AnyOther _ text => text
  end.

(** [fmt.Errorf("%v", r)] *)
Definition Errorf_v (r : any) : err := ErrorString (fmt_v r).

(** [helper.go], [makeErrorFromPanic]: the type assertion [r.(error)] picks
    the error out verbatim, anything else is formatted. *)
Definition makeErrorFromPanic (r : any) : err :=
  match r with
  | AnyError e => e
  | _ => Errorf_v r
  end.

(** ** Cancellation contexts

    A context made by [context.WithCancelCause] is a write-once slot for its
    cause: [None] while [Done()] is still open. *)
Abbreviation ctx := (option err) (only parsing).

(** [context.WithCancelCause(parent)]: a child of an already canceled parent
    is born canceled with the parent's cause. *)
Definition WithCancelCause (parent : ctx) : ctx := parent.

(** The [CancelCauseFunc]: the first call wins, a nil cause is recorded as
    [Canceled]. *)
Definition cancel (cause : error) (c : ctx) : ctx :=
  match c with
  | Some _ => c
  | None => Some (default Canceled cause)
  end.

(** Cancellation of the caller's parent context with cause [c]; it reaches the
    child unless the child has committed a cause already. *)
Definition propagate (c : err) (child : ctx) : ctx := cancel (Some c) child.

(** [func (f Goture) Wait() error].  The outer option is the blocking receive
    [<-f.ctx.Done()]: [None] means the call has not returned yet. *)
Definition Wait (f : ctx) : option error :=
  match f with
  | None => None
  | Some cause => Some (if is_SuccessResult cause then None else Some cause)
  end.

(** ** Tasks *)

(** What one call of a task does: it returns an [error], panics, or ends its
    goroutine with [runtime.Goexit] (as [testing.T.FailNow] does).  A task
    that never returns is a goroutine that is never scheduled again. *)
Inductive outcome : Type :=
  | Returns (e : error)
  | Panics (v : any)
  | Goexits.

(** [type Task func(ctx context.Context) error]; the task may look at the
    context it is given. *)
Abbreviation Task := (ctx -> outcome) (only parsing).

(** [recover()] in a deferred call: yields the pending panic value, if any,
    and stops the unwinding. *)
Definition recover (panicking : option any) : option any * option any :=
  (panicking, None).

(** How a goroutine leaves: its function returns (also after a recovered
    panic), an unrecovered panic takes the process down, or [runtime.Goexit]
    ends it once the deferred calls have run. *)
Inductive exit : Type :=
  | Exited
  | Crashed (v : any)
  | Goexited.

Definition exit_of (panicking : option any) : exit :=
  match panicking with
  | None => Exited
  | Some v => Crashed v
  end.

(** How a goroutine that called [runtime.Goexit] leaves after its deferred
    call [x]. *)
Definition goexit_of (x : exit) : exit :=
  match x with
  | Crashed v => Crashed v
  | _ => Goexited
  end.

(** [helper.go], [recoverCancel]: the deferred call of [NewGoture]'s
    goroutine. Returns the context after the call and how the goroutine
    leaves. *)
Definition recoverCancel (panicking : option any) (c : ctx) : ctx * exit :=
  let '(r, rest) := recover panicking in
  match r with
  | Some (AnyError e) => (cancel (Some e) c, exit_of rest)
  | Some v => (cancel (Some (Errorf_v v)) c, exit_of rest)
  | None => (c, exit_of rest)
  end.

(** [helper.go], [recoverCancelForParallel]: the value it sends on the
    channel, if any, and how the goroutine leaves. *)
Definition recoverCancelForParallel (panicking : option any) : option error * exit :=
  let '(r, rest) := recover panicking in
  match r with
  | Some (AnyError e) => (Some (Some e), exit_of rest)
  | Some v => (Some (Some (Errorf_v v)), exit_of rest)
  | None => (None, exit_of rest)
  end.

(** ** [NewGoture]: one task on one goroutine *)

Module Single.

(** Where the goroutine of [NewGoture] stands: before the call [fn(localCtx)],
    holding the returned value before its [cancel], inside the deferred
    [recoverCancel] (with the pending panic, if the task panicked), inside the
    deferred [recoverCancel] that [runtime.Goexit] runs, or gone. *)
Inductive pc : Type :=
  | Ready
  | Returned (e : error)
  | Deferred (panicking : option any)
  | Gone (x : exit)
  | Exiting.

Record state : Type := mkState {
  parentCtx : ctx;
  localCtx : ctx;
  worker : pc
}.

(** The state right after [NewGoture(ctx, fn)] has returned. *)
Definition NewGoture (parent : ctx) : state :=
  {| parentCtx := parent; localCtx := WithCancelCause parent; worker := Ready |}.

(** The future handed to the caller is [Goture{ctx: localCtx}]. *)
Definition wait (s : state) : option error := Wait (localCtx s).

(** The scheduler's choices: the goroutine takes its next step, or the
    caller's side cancels the parent context with cause [c]. *)
Inductive action : Type :=
  | Worker
  | ParentCancel (c : err).

Definition step (fn : Task) (a : action) (s : state) : option state :=
  match a with
  | Worker =>
      match worker s with
      | Ready =>
          match fn (localCtx s) with
          | Returns e => Some (mkState (parentCtx s) (localCtx s) (Returned e))
          | Panics v => Some (mkState (parentCtx s) (localCtx s) (Deferred (Some v)))
          | Goexits => Some (mkState (parentCtx s) (localCtx s) Exiting)
          end
      | Returned (Some e) =>
          Some (mkState (parentCtx s) (cancel (Some e) (localCtx s)) (Deferred None))
      | Returned None =>
          Some (mkState (parentCtx s) (cancel (Some SuccessResult) (localCtx s)) (Deferred None))
      | Deferred p =>
          let '(c, x) := recoverCancel p (localCtx s) in
          Some (mkState (parentCtx s) c (Gone x))
      | Exiting =>
          let '(c, x) := recoverCancel None (localCtx s) in
          Some (mkState (parentCtx s) c (Gone (goexit_of x)))
      | Gone _ => None
      end
  | ParentCancel c =>
      match parentCtx s with
      | Some _ => None
      | None => Some (mkState (Some c) (propagate c (localCtx s)) (worker s))
      end
  end.

Fixpoint run (fn : Task) (tr : list action) (s : state) : option state :=
  match tr with
  | [] => Some s
  | a :: tr' =>
      match step fn a s with
      | Some s' => run fn tr' s'
      | None => None
      end
  end.

(** The cause the goroutine hands to [cancel] for a given outcome of the
    task: the returned error, [SuccessResult{}] for a nil return, the converted
    panic value; none when the task ends the goroutine with [runtime.Goexit]. *)
Definition outcome_cause (o : outcome) : option err :=
  match o with
  | Returns (Some e) => Some e
  | Returns None => Some SuccessResult
  | Panics v => Some (makeErrorFromPanic v)
  | Goexits => None
  end.

(** The goroutine has its call of [cancel] behind it. *)
Definition committed (p : pc) : bool :=
  match p with
  | Deferred None | Gone Exited => true
  | _ => false
  end.

(** What holds of every state a schedule of [NewGoture] can reach. *)
Definition Inv (fn : Task) (s : state) : Prop :=
  match worker s with
  | Ready => localCtx s = parentCtx s
  | Returned e =>
      localCtx s = parentCtx s /\
      exists view, (view = None \/ view = parentCtx s) /\ fn view = Returns e
  | Deferred (Some v) =>
      localCtx s = parentCtx s /\
      exists view, (view = None \/ view = parentCtx s) /\ fn view = Panics v
  | Exiting | Gone Goexited =>
      localCtx s = parentCtx s /\
      exists view, (view = None \/ view = parentCtx s) /\ fn view = Goexits
  | Deferred None | Gone Exited =>
      exists c, localCtx s = Some c /\
        (parentCtx s = Some c \/
         exists view, (view = None \/ view = parentCtx s) /\
                      outcome_cause (fn view) = Some c)
  | Gone (Crashed _) => False
  end.

End Single.

(** ** [NewParallelGoture]: fan-in over a buffered channel *)

Module Parallel.

(** Where the goroutine of one task stands: before the call
    [task(localCtx)], at the send [completed <- e] of the returned value,
    inside the deferred [recoverCancelForParallel], inside the deferred
    [recoverCancelForParallel] that [runtime.Goexit] runs, or gone. *)
Inductive pc : Type :=
  | Ready
  | Sending (e : error)
  | Deferred (panicking : option any)
  | Gone (x : exit)
  | Exiting.

(** The coordinating goroutine: in its loop with counter [i] and the local
    [firstError], or gone after its [cancel]. *)
Inductive coord : Type :=
  | Draining (i : nat) (firstError : error)
  | CoordGone.

(** [completed] is the buffer of the channel, oldest value first, and
    [capacity] the size it was made with; [coordinator] is [None] when no
    coordinating goroutine was started. *)
Record state : Type := mkState {
  parentCtx : ctx;
  localCtx : ctx;
  workers : list pc;
  completed : list error;
  capacity : nat;
  coordinator : option coord
}.

(** The state right after [NewParallelGoture(parentCtx, tasks...)] has
    returned. *)
Definition NewParallelGoture (parent : ctx) (tasks : list Task) : state :=
  if decide (length tasks = 0) then
    let localCtx := WithCancelCause parent in
    let localCtx := cancel (Some SuccessResult) localCtx in
    mkState parent localCtx [] [] 0 None
  else
    mkState parent (WithCancelCause parent) (const Ready <$> tasks) []
            (length tasks) (Some (Draining 0 None)).

Definition wait (s : state) : option error := Wait (localCtx s).

(** Goroutines started by the constructor. *)
Definition spawned (s : state) : nat :=
  length (workers s) + (match coordinator s with Some _ => 1 | None => 0 end).

(** The scheduler's choices: goroutine [k] of the task list, the coordinator,
    or the caller's side cancelling the parent context. *)
Inductive action : Type :=
  | Worker (k : nat)
  | Coordinator
  | ParentCancel (c : err).

(** A send on the buffered channel; [None] when the buffer is full and the
    sender would block. *)
Definition send (e : error) (s : state) : option (list error) :=
  if decide (length (completed s) < capacity s) then Some (completed s ++ [e])
  else None.

Definition set_worker (k : nat) (p : pc) (ch : list error) (s : state) : state :=
  mkState (parentCtx s) (localCtx s) (<[k := p]> (workers s)) ch
          (capacity s) (coordinator s).

Definition step_worker (tasks : list Task) (k : nat) (s : state) : option state :=
  match workers s !! k, tasks !! k with
  | Some Ready, Some task =>
      match task (localCtx s) with
      | Returns e => Some (set_worker k (Sending e) (completed s) s)
      | Panics v => Some (set_worker k (Deferred (Some v)) (completed s) s)
      | Goexits => Some (set_worker k Exiting (completed s) s)
      end
  | Some (Sending e), _ =>
      ch ← send e s; Some (set_worker k (Deferred None) ch s)
  | Some (Deferred p), _ =>
      match recoverCancelForParallel p with
      | (Some e, x) => ch ← send e s; Some (set_worker k (Gone x) ch s)
      | (None, x) => Some (set_worker k (Gone x) (completed s) s)
      end
  | Some Exiting, _ =>
      match recoverCancelForParallel None with
      | (Some e, x) => ch ← send e s; Some (set_worker k (Gone (goexit_of x)) ch s)
      | (None, x) => Some (set_worker k (Gone (goexit_of x)) (completed s) s)
      end
  | _, _ => None
  end.

(** One turn of [for i := 0; i < len(tasks); i++ { ... }] or, after the
    loop, the final [cancel]. *)
Definition step_coord (tasks : list Task) (s : state) : option state :=
  match coordinator s with
  | Some (Draining i firstError) =>
      if decide (i < length tasks) then
        match completed s with
        | e :: rest =>
            let firstError' :=
              match e, firstError with
              | Some _, None => e
              | _, _ => firstError
              end in
            Some (mkState (parentCtx s) (localCtx s) (workers s) rest
                          (capacity s) (Some (Draining (S i) firstError')))
        | [] => None
        end
      else
        let cause :=
          match firstError with
          | Some _ => firstError
          | None => Some SuccessResult
          end in
        Some (mkState (parentCtx s) (cancel cause (localCtx s)) (workers s)
                      (completed s) (capacity s) (Some CoordGone))
  | _ => None
  end.

Definition step (tasks : list Task) (a : action) (s : state) : option state :=
  match a with
  | Worker k => step_worker tasks k s
  | Coordinator => step_coord tasks s
  | ParentCancel c =>
      match parentCtx s with
      | Some _ => None
      | None =>
          Some (mkState (Some c) (propagate c (localCtx s)) (workers s)
                        (completed s) (capacity s) (coordinator s))
      end
  end.

Fixpoint run (tasks : list Task) (tr : list action) (s : state) : option state :=
  match tr with
  | [] => Some s
  | a :: tr' =>
      match step tasks a s with
      | Some s' => run tasks tr' s'
      | None => None
      end
  end.

(** *** What a schedule makes observable *)

Inductive event : Type :=
  | Call (k : nat) (view : ctx)
  | Send (k : nat) (e : error)
  | Recv (e : error)
  | Commit (cause : error).

(** The event of action [a] taken in state [s]. *)
Definition observe (tasks : list Task) (a : action) (s : state) : list event :=
  match a with
  | Worker k =>
      match workers s !! k with
      | Some Ready => [Call k (localCtx s)]
      | Some (Sending e) => [Send k e]
      | Some (Deferred p) =>
          match recoverCancelForParallel p with
          | (Some e, _) => [Send k e]
          | (None, _) => []
          end
      | Some Exiting =>
          match recoverCancelForParallel None with
          | (Some e, _) => [Send k e]
          | (None, _) => []
          end
      | _ => []
      end
  | Coordinator =>
      match coordinator s with
      | Some (Draining i firstError) =>
          if decide (i < length tasks) then
            match completed s with
            | e :: _ => [Recv e]
            | [] => []
            end
          else [Commit (match firstError with
                        | Some _ => firstError
                        | None => Some SuccessResult
                        end)]
      | _ => []
      end
  | ParentCancel _ => []
  end.

Fixpoint events (tasks : list Task) (tr : list action) (s : state) : list event :=
  match tr with
  | [] => []
  | a :: tr' =>
      match step tasks a s with
      | Some s' => observe tasks a s ++ events tasks tr' s'
      | None => []
      end
  end.

Definition recv_of (ev : event) : option error :=
  match ev with Recv e => Some e | _ => None end.
Definition send_of (ev : event) : option (nat * error) :=
  match ev with Send k e => Some (k, e) | _ => None end.
Definition commit_of (ev : event) : option error :=
  match ev with Commit c => Some c | _ => None end.
Definition call_of (ev : event) : option (nat * ctx) :=
  match ev with Call k v => Some (k, v) | _ => None end.

(** The reports in the order the coordinator received them. *)
Definition arrivals (evs : list event) : list error := omap recv_of evs.
Definition sends (evs : list event) : list (nat * error) := omap send_of evs.
Definition commits (evs : list event) : list error := omap commit_of evs.
Definition calls (evs : list event) : list (nat * ctx) := omap call_of evs.

(** The first non-nil value of a list of reports. *)
Fixpoint first_error (reports : list error) : error :=
  match reports with
  | [] => None
  | Some e :: _ => Some e
  | None :: rest => first_error rest
  end.

(** What a goroutine sends on the channel for a given outcome of its task:
    nothing at all when the task ends the goroutine with [runtime.Goexit]. *)
Definition report (o : outcome) : option error :=
  match o with
  | Returns e => Some e
  | Panics v => Some (Some (makeErrorFromPanic v))
  | Goexits => None
  end.

(** No task of the list ever ends its goroutine with [runtime.Goexit]. *)
Definition no_goexit (tasks : list Task) : Prop :=
  forall k (task : Task) view, tasks !! k = Some task -> task view <> Goexits.

(** *** Auxiliary notions for the proofs *)

(** The cause the coordinator commits for a given [firstError]. *)
Definition cause_of (firstError : error) : error :=
  match firstError with
  | Some _ => firstError
  | None => Some SuccessResult
  end.

(** The program counter of a goroutine after the call of its task. *)
Definition after_call (o : outcome) : pc :=
  match o with
  | Returns e => Sending e
  | Panics v => Deferred (Some v)
  | Goexits => Exiting
  end.

(** Sends a goroutine at this program counter has behind it. *)
Definition sent (p : pc) : nat :=
  match p with
  | Deferred None | Gone Exited => 1
  | _ => 0
  end.

Fixpoint nsent (ws : list pc) : nat :=
  match ws with
  | [] => 0
  | p :: ws' => sent p + nsent ws'
  end.

Definition sends_by (k : nat) (evs : list event) : nat :=
  length (filter (fun x => x.1 = k) (sends evs)).

(** The steps of [step], one rule per program point, each with the event it
    makes observable. *)
Inductive Step (tasks : list Task) (s : state) : list event -> state -> Prop :=
  | Step_call k task :
      workers s !! k = Some Ready ->
      tasks !! k = Some task ->
      Step tasks s [Call k (localCtx s)]
           (set_worker k (after_call (task (localCtx s))) (completed s) s)
  | Step_send k e :
      workers s !! k = Some (Sending e) ->
      length (completed s) < capacity s ->
      Step tasks s [Send k e] (set_worker k (Deferred None) (completed s ++ [e]) s)
  | Step_recovered k v :
      workers s !! k = Some (Deferred (Some v)) ->
      length (completed s) < capacity s ->
      Step tasks s [Send k (Some (makeErrorFromPanic v))]
           (set_worker k (Gone Exited) (completed s ++ [Some (makeErrorFromPanic v)]) s)
  | Step_exit k :
      workers s !! k = Some (Deferred None) ->
      Step tasks s [] (set_worker k (Gone Exited) (completed s) s)
  | Step_goexit k :
      workers s !! k = Some Exiting ->
      Step tasks s [] (set_worker k (Gone Goexited) (completed s) s)
  | Step_recv i firstError e rest :
      coordinator s = Some (Draining i firstError) ->
      i < length tasks ->
      completed s = e :: rest ->
      Step tasks s [Recv e]
           (mkState (parentCtx s) (localCtx s) (workers s) rest (capacity s)
                    (Some (Draining (S i) (first_error [firstError; e]))))
  | Step_commit i firstError :
      coordinator s = Some (Draining i firstError) ->
      ¬ i < length tasks ->
      Step tasks s [Commit (cause_of firstError)]
           (mkState (parentCtx s) (cancel (cause_of firstError) (localCtx s))
                    (workers s) (completed s) (capacity s) (Some CoordGone))
  | Step_parent c :
      parentCtx s = None ->
      Step tasks s []
           (mkState (Some c) (propagate c (localCtx s)) (workers s) (completed s)
                    (capacity s) (coordinator s)).

(** What holds of every state a schedule can reach, in terms of the events
    seen on the way. *)
Record Inv (tasks : list Task) (evs : list event) (s : state) : Prop := mkInv {
  inv_len : length (workers s) = length tasks;
  inv_cap : capacity s = length tasks;
  inv_chan : (sends evs).*2 = arrivals evs ++ completed s;
  inv_tot : length (sends evs) = nsent (workers s);
  inv_by : forall k, sends_by k evs = from_option sent 0 (workers s !! k);
  inv_coord :
    match coordinator s with
    | Some (Draining i firstError) =>
        i = length (arrivals evs) /\ firstError = first_error (arrivals evs) /\
        commits evs = [] /\ i <= length tasks /\ localCtx s = parentCtx s
    | Some CoordGone =>
        length (arrivals evs) = length tasks /\
        commits evs = [cause_of (first_error (arrivals evs))] /\
        is_Some (localCtx s) /\
        (parentCtx s = None -> localCtx s = cause_of (first_error (arrivals evs)))
    | None => False
    end;
  inv_nocrash : forall k v, workers s !! k <> Some (Gone (Crashed v));
  inv_calls : forall k view, (k, view) ∈ calls evs -> view = None \/ view = parentCtx s;
  inv_pc : forall k,
    match workers s !! k with
    | Some (Sending e) =>
        exists task view, tasks !! k = Some task /\ (k, view) ∈ calls evs /\
                          task view = Returns e
    | Some (Deferred (Some v)) =>
        exists task view, tasks !! k = Some task /\ (k, view) ∈ calls evs /\
                          task view = Panics v
    | Some Exiting | Some (Gone Goexited) =>
        exists task view, tasks !! k = Some task /\ (k, view) ∈ calls evs /\
                          task view = Goexits
    | _ => True
    end;
  inv_sends : forall k e, (k, e) ∈ sends evs ->
    exists task view, tasks !! k = Some task /\ (k, view) ∈ calls evs /\
                      report (task view) = Some e
}.

(** Steps a goroutine still has to take. *)
Definition rem (p : pc) : nat :=
  match p with
  | Ready => 3
  | Sending _ => 2
  | Deferred _ => 1
  | Exiting => 1
  | Gone _ => 0
  end.

Fixpoint todo (ws : list pc) : nat :=
  match ws with
  | [] => 0
  | p :: ws' => rem p + todo ws'
  end.

Definition coord_todo (tasks : list Task) (c : option coord) : nat :=
  match c with
  | Some (Draining i _) => S (length tasks - i)
  | _ => 0
  end.

Definition measure (tasks : list Task) (s : state) : nat :=
  todo (workers s) + coord_todo tasks (coordinator s).

Definition is_ParentCancel (a : action) : bool :=
  match a with ParentCancel _ => true | _ => false end.

End Parallel.

(** ** The result-bearing parallel future *)

Module WithResult.

Section Model.
Context {T : Type}.

(** Modelled from the spec: the result-bearing variant ([NewParallelWithResult]
    and [GotureWithResult.Wait] in the README) has no source file here.  A task
    hands back a value together with an error, or panics. *)
Inductive outcome : Type :=
  | Yields (v : T) (e : error)
  | Panics (a : any).

(** Modelled from the spec: the caller's context, the shared child context
    derived from it, one slot per submitted task, and the reports in the order
    they arrived. *)
Record state : Type := mkState {
  parentCtx : ctx;
  sharedCtx : ctx;
  results : list T;
  reports : list error
}.


(** Modelled from the spec: once all reports are drained the coordinator
    commits the shared context, with the first error if any task failed, else
    with the success sentinel. *)
Definition commit (tasks : list (ctx -> outcome)) (s : state) : state :=
  if decide (length (reports s) = length tasks) then
    mkState (parentCtx s)
            (cancel (Parallel.cause_of (Parallel.first_error (reports s))) (sharedCtx s))
            (results s) (reports s)
  else s.

(** Modelled from the spec: the goroutine of the task submitted at index [k]
    completes; its value goes to slot [k], its error (or converted panic value)
    to the completion channel. *)
Definition complete (tasks : list (ctx -> outcome)) (k : nat) (s : state) : state :=
  match tasks !! k with
  | Some task =>
      match task (sharedCtx s) with
      | Yields v e =>
          commit tasks (mkState (parentCtx s) (sharedCtx s) (<[k := v]> (results s))
                                (reports s ++ [e]))
      | Panics a =>
          commit tasks (mkState (parentCtx s) (sharedCtx s) (results s)
                                (reports s ++ [Some (makeErrorFromPanic a)]))
      end
  | None => s
  end.

(** Modelled from the spec: what can happen next.  The task submitted at
    index [k] completes, or the caller's side cancels the parent context with
    cause [c]. *)
Inductive action : Type :=
  | Complete (k : nat)
  | ParentCancel (c : err).

(** Modelled from the spec: one such event; a cancellation of the parent
    reaches the shared context unless that has a cause already. *)
Definition step (tasks : list (ctx -> outcome)) (a : action) (s : state) : state :=
  match a with
  | Complete k => complete tasks k s
  | ParentCancel c =>
      match parentCtx s with
      | Some _ => s
      | None => mkState (Some c) (propagate c (sharedCtx s)) (results s) (reports s)
      end
  end.

(** Modelled from the spec: a sequence of such events. *)
Definition run (tasks : list (ctx -> outcome)) (tr : list action) (s : state) : state :=
  foldl (fun s a => step tasks a s) s tr.

(** Modelled from the spec: [Wait() -> (slice<T>, error)] returns once the
    shared context is committed, with the slots as they are and the cause, the
    success sentinel unwrapped to nil. *)
Definition wait (s : state) : option (list T * error) :=
  r ← Wait (sharedCtx s); Some (results s, r).

End Model.

End WithResult.

(** * Properties *)

(** ** Contexts and [Wait] *)

Lemma cancel_committed cause c x : c = Some x -> cancel cause c = Some x.
Proof. intros ->. reflexivity. Qed.

Lemma cancel_unset cause : cancel cause None = Some (default Canceled cause).
Proof. reflexivity. Qed.

Lemma cancel_is_Some cause c : is_Some (cancel cause c).
Proof. destruct c; simpl; eauto. Qed.

Lemma Wait_returns_inv c r : Wait c = Some r -> is_Some c.
Proof. destruct c; simpl; [eauto | discriminate]. Qed.

Lemma makeErrorFromPanic_error e : makeErrorFromPanic (AnyError e) = e.
Proof. reflexivity. Qed.

Lemma makeErrorFromPanic_other r :
  (forall e, r <> AnyError e) -> makeErrorFromPanic r = ErrorString (fmt_v r).
Proof. destruct r; intros H; [by destruct (H e) | done..]. Qed.

(** Both deferred helpers of [helper.go] convert the panic value the way
    [makeErrorFromPanic] does. *)
Lemma recoverCancel_panic v c :
  recoverCancel (Some v) c = (cancel (Some (makeErrorFromPanic v)) c, Exited).
Proof. by destruct v. Qed.

Lemma recoverCancel_quiet c : recoverCancel None c = (c, Exited).
Proof. reflexivity. Qed.

Lemma recoverCancelForParallel_panic v :
  recoverCancelForParallel (Some v) = (Some (Some (makeErrorFromPanic v)), Exited).
Proof. by destruct v. Qed.

Lemma recoverCancelForParallel_quiet : recoverCancelForParallel None = (None, Exited).
Proof. reflexivity. Qed.

(** ** The single-task future *)

Module SingleFacts.
Import Single.

(** A committed cause is never overwritten. *)
Lemma single_step_keeps_cause fn a s s' cause :
  step fn a s = Some s' -> localCtx s = Some cause -> localCtx s' = Some cause.
Proof.
  intros Hstep Hc. destruct a as [|c]; simpl in Hstep.
  - destruct (worker s) as [|[e|]|p|x|]; simplify_eq.
    + destruct (fn (localCtx s)); by simplify_eq.
    + simpl. by rewrite Hc.
    + simpl. by rewrite Hc.
    + destruct p as [v|].
      * rewrite recoverCancel_panic in Hstep. simplify_eq. simpl. by rewrite Hc.
      * rewrite recoverCancel_quiet in Hstep. by simplify_eq.
    + done.
  - destruct (parentCtx s); simplify_eq. simpl. by rewrite Hc.
Qed.

Lemma single_run_keeps_cause fn tr s s' cause :
  run fn tr s = Some s' -> localCtx s = Some cause -> localCtx s' = Some cause.
Proof.
  revert s. induction tr as [|a tr IH]; intros s Hrun Hc; simpl in Hrun.
  - by simplify_eq.
  - destruct (step fn a s) as [s1|] eqn:Hs; [|done].
    eapply IH; [done|]. by eapply single_step_keeps_cause.
Qed.

(** No step ever leaves the goroutine with an unrecovered panic. *)
Lemma single_step_no_crash fn a s s' :
  step fn a s = Some s' ->
  (forall v, worker s <> Gone (Crashed v)) -> forall v, worker s' <> Gone (Crashed v).
Proof.
  intros Hstep Hs v. destruct a as [|c]; simpl in Hstep.
  - destruct (worker s) as [|[e|]|p|x|]; simplify_eq; simpl; try done.
    + destruct (fn (localCtx s)); by simplify_eq.
    + destruct p as [w|].
      * rewrite recoverCancel_panic in Hstep. by simplify_eq.
      * rewrite recoverCancel_quiet in Hstep. by simplify_eq.
  - destruct (parentCtx s); simplify_eq. simpl. apply Hs.
Qed.

Lemma single_run_no_crash fn tr s s' :
  run fn tr s = Some s' ->
  (forall v, worker s <> Gone (Crashed v)) -> forall v, worker s' <> Gone (Crashed v).
Proof.
  revert s. induction tr as [|a tr IH]; intros s Hrun Hs; simpl in Hrun.
  - by simplify_eq.
  - destruct (step fn a s) as [s1|] eqn:Hstep; [|done].
    eapply IH; [done|]. by eapply single_step_no_crash.
Qed.

(** The first two steps of the goroutine when the parent is not canceled:
    the call of the task, then the commit of its outcome. *)
Lemma commit_of_return fn e tr s :
  fn None = Returns e ->
  run fn (Worker :: Worker :: tr) (NewGoture None) = Some s ->
  localCtx s = Some (default SuccessResult e).
Proof.
  intros Hfn Hrun. unfold NewGoture, WithCancelCause in Hrun.
  simpl in Hrun. rewrite Hfn in Hrun. simpl in Hrun.
  destruct e as [e|]; simpl in Hrun; by eapply single_run_keeps_cause.
Qed.

Lemma commit_of_panic fn v tr s :
  fn None = Panics v ->
  run fn (Worker :: Worker :: tr) (NewGoture None) = Some s ->
  localCtx s = Some (makeErrorFromPanic v).
Proof.
  intros Hfn Hrun. unfold NewGoture, WithCancelCause in Hrun.
  simpl in Hrun. rewrite Hfn in Hrun. simpl in Hrun.
  rewrite recoverCancel_panic in Hrun. simpl in Hrun.
  by eapply single_run_keeps_cause.
Qed.

End SingleFacts.

(** ** The parallel future *)

Module ParallelFacts.
Import Parallel.

Lemma step_Step tasks a s s' :
  step tasks a s = Some s' -> Step tasks s (observe tasks a s) s'.
Proof.
  destruct a as [k| |c]; simpl.
  - unfold step_worker.
    destruct (workers s !! k) as [[|e|p|x|]|] eqn:Hk; try done.
    + destruct (tasks !! k) as [task|] eqn:Ht; [|done].
      intros Hst.
      assert (s' = set_worker k (after_call (task (localCtx s))) (completed s) s)
        as -> by (destruct (task (localCtx s)); by simplify_eq).
      by constructor.
    + unfold send. case_decide; simpl; [|by destruct (tasks !! k)].
      intros Hst.
      assert (s' = set_worker k (Deferred None) (completed s ++ [e]) s) as ->
          by (destruct (tasks !! k); by simplify_eq).
      by constructor.
    + destruct p as [v|].
      * rewrite recoverCancelForParallel_panic. unfold send.
        case_decide; simpl; [|by destruct (tasks !! k)].
        intros Hst.
        assert (s' = set_worker k (Gone Exited)
                       (completed s ++ [Some (makeErrorFromPanic v)]) s) as ->
            by (destruct (tasks !! k); by simplify_eq).
        by constructor.
      * rewrite recoverCancelForParallel_quiet. intros Hst.
        assert (s' = set_worker k (Gone Exited) (completed s) s) as ->
            by (destruct (tasks !! k); by simplify_eq).
        by constructor.
    + rewrite recoverCancelForParallel_quiet. simpl. intros Hst.
      assert (s' = set_worker k (Gone Goexited) (completed s) s) as ->
          by (destruct (tasks !! k); by simplify_eq).
      by constructor.
  - unfold step_coord.
    destruct (coordinator s) as [[i fe|]|] eqn:Hc; try done.
    case_decide as Hi.
    + destruct (completed s) as [|e rest] eqn:Hch; [done|].
      intros [= <-].
      replace (match e with Some _ => match fe with Some _ => fe | None => e end
                       | None => fe end) with (first_error [fe; e])
        by (by destruct e, fe).
      by econstructor.
    + intros [= <-]. by apply (Step_commit tasks s i fe).
  - destruct (parentCtx s) eqn:Hp; [done|]. intros [= <-]. by constructor.
Qed.

(** Induction along a schedule, with the events seen so far. *)
Lemma run_ind (tasks : list Task) (P : list event -> state -> Prop) :
  (forall evs s ev s', P evs s -> Step tasks s ev s' -> P (evs ++ ev) s') ->
  forall tr s0 s, P [] s0 -> run tasks tr s0 = Some s -> P (events tasks tr s0) s.
Proof.
  intros Hstep tr. revert P Hstep.
  induction tr as [|a tr IH]; intros P Hstep s0 s H0 Hrun; simpl in *.
  - by simplify_eq.
  - destruct (step tasks a s0) as [s1|] eqn:Hs; [|done].
    apply step_Step in Hs.
    apply (IH (fun evs s => P (observe tasks a s0 ++ evs) s)); [| |done].
    + intros evs s2 ev s3 HP Hst. rewrite app_assoc. by eapply Hstep.
    + rewrite app_nil_r. by apply (Hstep [] s0).
Qed.

Lemma run_app tasks tr1 tr2 s :
  run tasks (tr1 ++ tr2) s = run tasks tr1 s ≫= run tasks tr2.
Proof.
  revert s. induction tr1 as [|a tr1 IH]; intros s; simpl; [done|].
  destruct (step tasks a s); simpl; [apply IH | done].
Qed.

Lemma sent_le p : sent p <= 1.
Proof. destruct p as [| |[]|[]|]; simpl; lia. Qed.

Lemma nsent_le ws : nsent ws <= length ws.
Proof.
  induction ws as [|p ws IH]; simpl; [done|]. pose proof (sent_le p). lia.
Qed.

Lemma nsent_lt ws k p : ws !! k = Some p -> sent p = 0 -> nsent ws < length ws.
Proof.
  revert k. induction ws as [|q ws IH]; intros [|k] Hk Hp; simplify_eq/=.
  - pose proof (nsent_le ws). lia.
  - specialize (IH _ Hk Hp). pose proof (sent_le q). lia.
Qed.

Lemma nsent_full ws k p : nsent ws = length ws -> ws !! k = Some p -> sent p = 1.
Proof.
  intros Hfull Hk. pose proof (sent_le p).
  destruct (decide (sent p = 0)) as [H0|]; [|lia].
  pose proof (nsent_lt _ _ _ Hk H0). lia.
Qed.

Lemma nsent_insert ws k p p' :
  ws !! k = Some p -> nsent (<[k:=p']> ws) + sent p = nsent ws + sent p'.
Proof.
  revert k. induction ws as [|q ws IH]; intros [|k] Hk; simplify_eq/=.
  - lia.
  - specialize (IH _ Hk). lia.
Qed.

Lemma nsent_Ready (tasks : list Task) : nsent (const Ready <$> tasks) = 0.
Proof. induction tasks as [|t ts IH]; [done|]. by simpl. Qed.

Lemma arrivals_app evs1 evs2 : arrivals (evs1 ++ evs2) = arrivals evs1 ++ arrivals evs2.
Proof. apply omap_app. Qed.

Lemma sends_app evs1 evs2 : sends (evs1 ++ evs2) = sends evs1 ++ sends evs2.
Proof. apply omap_app. Qed.

Lemma commits_app evs1 evs2 : commits (evs1 ++ evs2) = commits evs1 ++ commits evs2.
Proof. apply omap_app. Qed.

Lemma calls_app evs1 evs2 : calls (evs1 ++ evs2) = calls evs1 ++ calls evs2.
Proof. apply omap_app. Qed.

Lemma sends_by_app k evs1 evs2 :
  sends_by k (evs1 ++ evs2) = sends_by k evs1 + sends_by k evs2.
Proof. unfold sends_by. by rewrite sends_app, filter_app, length_app. Qed.

Lemma sends_by_quiet k evs ev :
  sends ev = [] -> sends_by k (evs ++ ev) = sends_by k evs.
Proof. intros H. unfold sends_by. by rewrite sends_app, H, app_nil_r. Qed.

Lemma sends_by_Call k j view : sends_by k [Call j view] = 0.
Proof. done. Qed.

Lemma sends_by_Send k j e : sends_by k [Send j e] = if decide (j = k) then 1 else 0.
Proof.
  unfold sends_by. simpl. rewrite filter_cons. simpl.
  by destruct (decide (j = k)).
Qed.

Lemma first_error_app l1 l2 :
  first_error (l1 ++ l2) = first_error [first_error l1; first_error l2].
Proof.
  induction l1 as [|[e|] l1 IH]; simpl; [by destruct (first_error l2)|done|done].
Qed.

Lemma first_error_snoc l e : first_error (l ++ [e]) = first_error [first_error l; e].
Proof. rewrite first_error_app. simpl. by destruct e. Qed.

Lemma cancel_cause_of firstError : cancel (cause_of firstError) None = cause_of firstError.
Proof. by destruct firstError. Qed.

Lemma sent_after_call o : sent (after_call o) = 0.
Proof. by destruct o. Qed.

Lemma Inv_init p tasks :
  length tasks <> 0 -> Inv tasks [] (NewParallelGoture p tasks).
Proof.
  intros HN. unfold NewParallelGoture. case_decide; [done|].
  split; simpl.
  - by rewrite length_fmap.
  - done.
  - done.
  - by rewrite nsent_Ready.
  - intros k. rewrite list_lookup_fmap. by destruct (tasks !! k).
  - repeat split. lia.
  - intros k v. rewrite list_lookup_fmap. by destruct (tasks !! k).
  - intros k view Hin. by apply elem_of_nil in Hin.
  - intros k. rewrite list_lookup_fmap. by destruct (tasks !! k).
  - intros k e Hin. by apply elem_of_nil in Hin.
Qed.

(** While a goroutine has not sent yet, the coordinator is still in its
    loop. *)
Lemma unsent_Draining tasks evs s k p :
  Inv tasks evs s -> workers s !! k = Some p -> sent p = 0 ->
  exists i firstError, coordinator s = Some (Draining i firstError) /\ i < length tasks.
Proof.
  intros HI Hk Hp.
  pose proof (nsent_lt _ _ _ Hk Hp) as Hlt.
  pose proof (inv_coord _ _ _ HI) as Hc.
  pose proof (f_equal length (inv_chan _ _ _ HI)) as Hch.
  rewrite length_fmap, length_app, (inv_tot _ _ _ HI) in Hch.
  rewrite (inv_len _ _ _ HI) in Hlt.
  destruct (coordinator s) as [[i fe|]|]; [|lia|done].
  exists i, fe. split; [done|lia].
Qed.

(** A goroutine about to send finds room in the buffer. *)
Lemma unsent_room tasks evs s k p :
  Inv tasks evs s -> workers s !! k = Some p -> sent p = 0 ->
  length (completed s) < capacity s.
Proof.
  intros HI Hk Hp.
  pose proof (nsent_lt _ _ _ Hk Hp) as Hlt.
  pose proof (f_equal length (inv_chan _ _ _ HI)) as Hch.
  rewrite length_fmap, length_app, (inv_tot _ _ _ HI) in Hch.
  rewrite (inv_len _ _ _ HI) in Hlt. rewrite (inv_cap _ _ _ HI). lia.
Qed.

Local Ltac evs_simpl :=
  rewrite ?arrivals_app, ?sends_app, ?commits_app, ?calls_app;
  simpl; rewrite ?app_nil_r.

Local Ltac lookup_k j k :=
  destruct (decide (j = k)) as [->|];
  [rewrite list_lookup_insert_eq by (by eapply lookup_lt_Some)
  |rewrite list_lookup_insert_ne by done].

Lemma Inv_step tasks evs s ev s' :
  Inv tasks evs s -> Step tasks s ev s' -> Inv tasks (evs ++ ev) s'.
Proof.
  intros HI Hst.
  destruct HI as [Hlen Hcap Hchan Htot Hby Hcoord Hcrash Hcalls Hpc Hsends].
  pose proof (mkInv _ _ _ Hlen Hcap Hchan Htot Hby Hcoord Hcrash Hcalls Hpc Hsends) as HI.
  destruct Hst as [k task Hk Ht|k e Hk Hroom|k v Hk Hroom|k Hk|k Hk
                  |i fe e rest Hc Hi Hch|i fe Hc Hi|c Hp].
  - (* call *)
    destruct (unsent_Draining _ _ _ _ _ HI Hk eq_refl) as (i & fe & Hc & Hi).
    rewrite Hc in Hcoord. destruct Hcoord as (-> & -> & Hcm & _ & Hctx).
    pose proof (nsent_insert _ _ _ (after_call (task (localCtx s))) Hk) as Hins.
    rewrite sent_after_call in Hins. simpl in Hins.
    split; simpl; evs_simpl.
    + by rewrite length_insert.
    + done.
    + done.
    + lia.
    + intros j. rewrite sends_by_app, sends_by_Call, Hby, Nat.add_0_r.
      lookup_k j k; [|done]. rewrite Hk. simpl. by rewrite sent_after_call.
    + rewrite Hc. split_and!; try done. lia.
    + intros j w. lookup_k j k; [|apply Hcrash].
      by destruct (task (localCtx s)).
    + intros j view [Hin|[= -> ->]%list_elem_of_singleton]%elem_of_app;
        [by apply (Hcalls j)|by right].
    + intros j. lookup_k j k.
      * destruct (task (localCtx s)) as [e|v|] eqn:Hout; simpl;
          exists task, (localCtx s); (split; [done|]);
          (split; [|done]); apply elem_of_app; right; by apply list_elem_of_singleton.
      * specialize (Hpc j). destruct (workers s !! j) as [[|e|[v|]|[|v|]|]|]; try done;
          destruct Hpc as (t & w & ? & ? & ?); exists t, w;
          (split; [done|]); (split; [|done]); apply elem_of_app; by left.
    + intros j e Hin. destruct (Hsends j e Hin) as (t & w & ? & ? & ?).
      exists t, w. split; [done|]. split; [|done]. apply elem_of_app; by left.
  - (* send of the returned value *)
    pose proof (nsent_insert _ _ _ (Deferred None) Hk) as Hins. simpl in Hins.
    pose proof (Hpc k) as Hpk. rewrite Hk in Hpk.
    split; simpl; evs_simpl.
    + by rewrite length_insert.
    + done.
    + by rewrite fmap_app, Hchan, app_assoc.
    + rewrite length_app. simpl. lia.
    + intros j. rewrite sends_by_app, Hby, sends_by_Send. lookup_k j k.
      * rewrite Hk. by rewrite decide_True.
      * rewrite decide_False by done. lia.
    + done.
    + intros j w. lookup_k j k; [done|apply Hcrash].
    + done.
    + intros j. lookup_k j k; [done|apply Hpc].
    + intros j x [Hin|[= -> ->]%list_elem_of_singleton]%elem_of_app;
        [by apply Hsends|].
      destruct Hpk as (t & w & ? & ? & Hout). exists t, w. by rewrite Hout.
  - (* send of the converted panic value *)
    pose proof (nsent_insert _ _ _ (Gone Exited) Hk) as Hins. simpl in Hins.
    pose proof (Hpc k) as Hpk. rewrite Hk in Hpk.
    split; simpl; evs_simpl.
    + by rewrite length_insert.
    + done.
    + by rewrite fmap_app, Hchan, app_assoc.
    + rewrite length_app. simpl. lia.
    + intros j. rewrite sends_by_app, Hby, sends_by_Send. lookup_k j k.
      * rewrite Hk. by rewrite decide_True.
      * rewrite decide_False by done. lia.
    + done.
    + intros j w. lookup_k j k; [done|apply Hcrash].
    + done.
    + intros j. lookup_k j k; [done|apply Hpc].
    + intros j x [Hin|[= -> ->]%list_elem_of_singleton]%elem_of_app;
        [by apply Hsends|].
      destruct Hpk as (t & w & ? & ? & Hout). exists t, w. by rewrite Hout.
  - (* the deferred call after a normal return *)
    pose proof (nsent_insert _ _ _ (Gone Exited) Hk) as Hins. simpl in Hins.
    split; simpl; evs_simpl.
    + by rewrite length_insert.
    + done.
    + done.
    + lia.
    + intros j. rewrite Hby. lookup_k j k; [by rewrite Hk|done].
    + done.
    + intros j w. lookup_k j k; [done|apply Hcrash].
    + done.
    + intros j. lookup_k j k; [done|apply Hpc].
    + done.
  - (* the deferred call run by Goexit *)
    pose proof (nsent_insert _ _ _ (Gone Goexited) Hk) as Hins. simpl in Hins.
    pose proof (Hpc k) as Hpk. rewrite Hk in Hpk.
    split; simpl; evs_simpl.
    + by rewrite length_insert.
    + done.
    + done.
    + lia.
    + intros j. rewrite Hby. lookup_k j k; [by rewrite Hk|done].
    + done.
    + intros j w. lookup_k j k; [done|apply Hcrash].
    + done.
    + intros j. lookup_k j k; [done|apply Hpc].
    + done.
  - (* receive *)
    rewrite Hc in Hcoord. destruct Hcoord as (-> & -> & Hcm & _ & Hctx).
    split; simpl; evs_simpl; try done.
    + by rewrite Hchan, Hch, <-app_assoc.
    + intros j. by rewrite sends_by_quiet.
    + rewrite length_app, first_error_snoc. simpl. repeat split; [lia|done|lia|done].
  - (* commit *)
    rewrite Hc in Hcoord. destruct Hcoord as (-> & -> & Hcm & Hle & Hctx).
    split; simpl; evs_simpl; try done.
    + intros j. by rewrite sends_by_quiet.
    + split_and!.
      * lia.
      * by rewrite Hcm.
      * apply cancel_is_Some.
      * intros Hp. rewrite Hctx, Hp. apply cancel_cause_of.
  - (* cancellation of the parent *)
    split; simpl; evs_simpl; try done.
    + destruct (coordinator s) as [[i fe|]|]; [| |done].
      * destruct Hcoord as (-> & -> & Hcm & Hle & Hctx).
        repeat split; [done..|]. by rewrite Hctx, Hp.
      * destruct Hcoord as (Hn & Hcm & Hsome & _).
        repeat split; [done..|apply cancel_is_Some|done].
    + intros j view Hin. destruct (Hcalls j view Hin) as [->| ->]; [by left|].
      rewrite Hp. by left.
Qed.

Lemma Inv_run tasks p tr s :
  length tasks <> 0 ->
  run tasks tr (NewParallelGoture p tasks) = Some s ->
  Inv tasks (events tasks tr (NewParallelGoture p tasks)) s.
Proof.
  intros HN. apply (run_ind tasks (Inv tasks)).
  - apply Inv_step.
  - by apply Inv_init.
Qed.

(** A committed cause is never overwritten. *)
Lemma Step_keeps_cause tasks s ev s' cause :
  Step tasks s ev s' -> localCtx s = Some cause -> localCtx s' = Some cause.
Proof.
  intros Hst Hc. destruct Hst; simpl; try done.
  - by apply cancel_committed.
  - by apply cancel_committed.
Qed.

Lemma run_keeps_cause tasks tr s s' cause :
  run tasks tr s = Some s' -> localCtx s = Some cause -> localCtx s' = Some cause.
Proof.
  revert s. induction tr as [|a tr IH]; intros s Hrun Hc; simpl in Hrun.
  - by simplify_eq.
  - destruct (step tasks a s) as [s1|] eqn:Hs; [|done].
    eapply IH; [done|]. eapply Step_keeps_cause; [by apply step_Step|done].
Qed.

(** The parent's cause is written once as well. *)
Lemma Step_keeps_parent tasks s ev s' c :
  Step tasks s ev s' -> parentCtx s = Some c -> parentCtx s' = Some c.
Proof. intros Hst Hc. destruct Hst; simpl; try done. congruence. Qed.

(** *** Every schedule can be completed *)

Lemma todo_insert ws k p p' :
  ws !! k = Some p -> todo (<[k:=p']> ws) + rem p = todo ws + rem p'.
Proof.
  revert k. induction ws as [|q ws IH]; intros [|k] Hk; simplify_eq/=.
  - lia.
  - specialize (IH _ Hk). lia.
Qed.

Lemma todo_0 ws : todo ws = 0 -> forall k p, ws !! k = Some p -> rem p = 0.
Proof.
  induction ws as [|q ws IH]; intros H0 [|k] p Hk; simplify_eq/=.
  - lia.
  - apply (IH ltac:(lia) k p Hk).
Qed.

Lemma todo_pos ws : todo ws <> 0 -> exists k p, ws !! k = Some p /\ rem p <> 0.
Proof.
  induction ws as [|q ws IH]; simpl; [done|]. intros H.
  destruct (decide (rem q = 0)) as [Hq|Hq].
  - destruct IH as (k & p & Hk & Hp); [lia|]. by exists (S k), p.
  - by exists 0, q.
Qed.

Lemma nsent_all ws :
  (forall k p, ws !! k = Some p -> sent p = 1) -> nsent ws = length ws.
Proof.
  induction ws as [|q ws IH]; intros H; simpl; [done|].
  rewrite (H 0 q eq_refl), IH; [done|]. intros k p Hk. by apply (H (S k)).
Qed.

(** With tasks that never call [runtime.Goexit], a goroutine that is gone has
    its send behind it. *)
Lemma gone_sent tasks evs s k p :
  Inv tasks evs s -> no_goexit tasks ->
  workers s !! k = Some p -> rem p = 0 -> sent p = 1.
Proof.
  intros HI Hno Hk Hp. destruct p as [| | |[|v|]|]; try done.
  - by destruct (inv_nocrash _ _ _ HI k v).
  - pose proof (inv_pc _ _ _ HI k) as Hpc. rewrite Hk in Hpc.
    destruct Hpc as (task & view & Ht & _ & Hout). by destruct (Hno k task view Ht).
Qed.

(** A goroutine that is not gone can take its next step, whatever its
    siblings did and whatever the state of the context; the step leaves the
    contexts and the coordinator alone. *)
Lemma worker_enabled tasks evs s k p :
  Inv tasks evs s -> workers s !! k = Some p -> rem p <> 0 ->
  exists s', step tasks (Worker k) s = Some s' /\
             todo (workers s') < todo (workers s) /\
             coordinator s' = coordinator s /\
             parentCtx s' = parentCtx s /\ localCtx s' = localCtx s.
Proof.
  intros HI Hk Hp. simpl. unfold step_worker. rewrite Hk.
  destruct p as [|e|q|x|]; [| | |done|].
  - destruct (tasks !! k) as [task|] eqn:Ht.
    2: { apply lookup_ge_None in Ht. apply lookup_lt_Some in Hk.
         rewrite (inv_len _ _ _ HI) in Hk. lia. }
    exists (set_worker k (after_call (task (localCtx s))) (completed s) s).
    split; [by destruct (task (localCtx s))|]. simpl. split_and!; [|done..].
    pose proof (todo_insert _ _ _ (after_call (task (localCtx s))) Hk) as Hins.
    destruct (task (localCtx s)); simpl in *; lia.
  - pose proof (unsent_room _ _ _ _ _ HI Hk eq_refl) as Hroom.
    unfold send. rewrite decide_True by done. simpl.
    eexists; split; [by destruct (tasks !! k)|]. simpl. split_and!; [|done..].
    pose proof (todo_insert _ _ _ (Deferred None) Hk) as Hins. simpl in *. lia.
  - destruct q as [v|].
    + pose proof (unsent_room _ _ _ _ _ HI Hk eq_refl) as Hroom.
      rewrite recoverCancelForParallel_panic.
      unfold send. rewrite decide_True by done. simpl.
      eexists; split; [by destruct (tasks !! k)|]. simpl. split_and!; [|done..].
      pose proof (todo_insert _ _ _ (Gone Exited) Hk) as Hins. simpl in *. lia.
    + rewrite recoverCancelForParallel_quiet.
      eexists; split; [by destruct (tasks !! k)|]. simpl. split_and!; [|done..].
      pose proof (todo_insert _ _ _ (Gone Exited) Hk) as Hins. simpl in *. lia.
  - rewrite recoverCancelForParallel_quiet. simpl.
    eexists; split; [by destruct (tasks !! k)|]. simpl. split_and!; [|done..].
    pose proof (todo_insert _ _ _ (Gone Goexited) Hk) as Hins. simpl in *. lia.
Qed.

(** The goroutines can always run to their end, with no step of the
    coordinator and none of the parent. *)
Lemma workers_finish tasks n : forall evs s,
  Inv tasks evs s -> todo (workers s) <= n ->
  exists tr s', run tasks tr s = Some s' /\
                forallb (fun a => negb (is_ParentCancel a)) tr = true /\
                todo (workers s') = 0 /\
                coordinator s' = coordinator s /\
                parentCtx s' = parentCtx s /\ localCtx s' = localCtx s /\
                Inv tasks (evs ++ events tasks tr s) s'.
Proof.
  induction n as [|n IH]; intros evs s HI Hm.
  - exists [], s. simpl. rewrite app_nil_r. split_and!; try done. lia.
  - destruct (decide (todo (workers s) = 0)) as [H0|H0].
    { exists [], s. simpl. by rewrite app_nil_r. }
    destruct (todo_pos _ H0) as (k & p & Hk & Hp).
    destruct (worker_enabled _ _ _ _ _ HI Hk Hp) as (s1 & Hs & Hd & Hc1 & Hp1 & Hl1).
    pose proof (Inv_step _ _ _ _ _ HI (step_Step _ _ _ _ Hs)) as HI1.
    destruct (IH _ s1 HI1 ltac:(lia)) as (tr & s' & Hrun & Hall & Hend & Hc' & Hp' & Hl' & HI').
    exists (Worker k :: tr), s'.
    change (run tasks (Worker k :: tr) s)
      with (match step tasks (Worker k) s with Some s2 => run tasks tr s2 | None => None end).
    change (events tasks (Worker k :: tr) s)
      with (match step tasks (Worker k) s with
            | Some s2 => observe tasks (Worker k) s ++ events tasks tr s2
            | None => []
            end).
    rewrite Hs. split_and!; try done; try congruence. by rewrite app_assoc.
Qed.

(** Once every goroutine is gone, each with its send behind it, the
    coordinator can take its next step. *)
Lemma coord_enabled tasks evs s :
  Inv tasks evs s -> no_goexit tasks ->
  todo (workers s) = 0 -> measure tasks s <> 0 ->
  exists s', step tasks Coordinator s = Some s' /\
             measure tasks s' < measure tasks s.
Proof.
  intros HI Hno H0 Hm. unfold measure in *. rewrite H0 in *. simpl in *.
  unfold step_coord.
  pose proof (inv_coord _ _ _ HI) as Hc.
  destruct (coordinator s) as [[i fe|]|] eqn:Hco; [|done|done].
  destruct Hc as (Hi & Hfe & Hcm & Hle & Hctx).
  case_decide as Hlt.
  - assert (nsent (workers s) = length (workers s)) as Hfull.
    { apply nsent_all. intros k p Hk.
      apply (gone_sent _ _ _ _ _ HI Hno Hk). by apply (todo_0 _ H0 k). }
    pose proof (f_equal length (inv_chan _ _ _ HI)) as Hch.
    rewrite length_fmap, length_app, (inv_tot _ _ _ HI), Hfull,
      (inv_len _ _ _ HI) in Hch.
    destruct (completed s) as [|e rest]; simpl in Hch; [lia|].
    eexists; split; [done|]. simpl. rewrite H0. simpl. lia.
  - eexists; split; [done|]. simpl. rewrite H0. simpl. lia.
Qed.

Lemma progress tasks evs s :
  Inv tasks evs s -> no_goexit tasks -> measure tasks s <> 0 ->
  exists a s', step tasks a s = Some s' /\ is_ParentCancel a = false /\
               measure tasks s' < measure tasks s.
Proof.
  intros HI Hno Hm. destruct (decide (todo (workers s) = 0)) as [H0|H0].
  - destruct (coord_enabled _ _ _ HI Hno H0 Hm) as (s' & Hs & Hd).
    by exists Coordinator, s'.
  - destruct (todo_pos _ H0) as (k & p & Hk & Hp).
    destruct (worker_enabled _ _ _ _ _ HI Hk Hp) as (s' & Hs & Hd & Hc & _).
    exists (Worker k), s'. split_and!; [done..|]. unfold measure. rewrite Hc. lia.
Qed.

Lemma completion_from tasks n : forall evs s,
  Inv tasks evs s -> no_goexit tasks -> measure tasks s <= n ->
  exists tr s', run tasks tr s = Some s' /\
                forallb (fun a => negb (is_ParentCancel a)) tr = true /\
                measure tasks s' = 0 /\
                Inv tasks (evs ++ events tasks tr s) s'.
Proof.
  induction n as [|n IH]; intros evs s HI Hno Hm.
  - exists [], s. simpl. rewrite app_nil_r. split_and!; try done. lia.
  - destruct (decide (measure tasks s = 0)) as [H0|H0].
    { exists [], s. simpl. by rewrite app_nil_r. }
    destruct (progress _ _ _ HI Hno H0) as (a & s1 & Hs & Ha & Hd).
    pose proof (Inv_step _ _ _ _ _ HI (step_Step _ _ _ _ Hs)) as HI1.
    destruct (IH _ s1 HI1 Hno ltac:(lia)) as (tr & s' & Hrun & Hall & Hend & HI').
    exists (a :: tr), s'. simpl. rewrite Hs, Ha. simpl.
    split_and!; try done. by rewrite app_assoc.
Qed.

(** After its [cancel] the coordinator does nothing more. *)
Lemma Step_CoordGone tasks s ev s' :
  Step tasks s ev s' -> coordinator s = Some CoordGone ->
  coordinator s' = Some CoordGone /\ arrivals ev = [] /\ commits ev = [].
Proof. intros Hst Hc. destruct Hst; simpl; by simplify_eq. Qed.

Lemma run_CoordGone tasks tr s s' :
  run tasks tr s = Some s' -> coordinator s = Some CoordGone ->
  coordinator s' = Some CoordGone /\
  arrivals (events tasks tr s) = [] /\ commits (events tasks tr s) = [].
Proof.
  revert s. induction tr as [|a tr IH]; intros s Hrun Hc; simpl in *.
  - by simplify_eq.
  - destruct (step tasks a s) as [s1|] eqn:Hs; [|done].
    destruct (Step_CoordGone _ _ _ _ (step_Step _ _ _ _ Hs) Hc) as (Hc1 & Ha & Hcm).
    destruct (IH _ Hrun Hc1) as (? & Ha' & Hcm').
    by rewrite arrivals_app, commits_app, Ha, Ha', Hcm, Hcm'.
Qed.

(** Once the coordinator has committed, all [N] goroutines have sent. *)
Lemma CoordGone_all_sent tasks evs s :
  Inv tasks evs s -> coordinator s = Some CoordGone ->
  length (sends evs) = length tasks /\ length (arrivals evs) = length tasks.
Proof.
  intros HI Hc. pose proof (inv_coord _ _ _ HI) as Hco. rewrite Hc in Hco.
  destruct Hco as (Hn & _).
  pose proof (f_equal length (inv_chan _ _ _ HI)) as Hch.
  rewrite length_fmap, length_app in Hch.
  pose proof (nsent_le (workers s)) as Hle.
  rewrite <-(inv_tot _ _ _ HI), (inv_len _ _ _ HI) in Hle. lia.
Qed.

(** When nothing is left to do the coordinator is gone and so is every
    goroutine, by returning or by a recovered panic. *)
Lemma measure_0 tasks evs s :
  Inv tasks evs s -> measure tasks s = 0 ->
  coordinator s = Some CoordGone /\
  forall k p, workers s !! k = Some p -> p = Gone Exited.
Proof.
  intros HI Hm. unfold measure in Hm.
  pose proof (inv_coord _ _ _ HI) as Hc.
  assert (coordinator s = Some CoordGone) as Hcg
      by (destruct (coordinator s) as [[i fe|]|]; simpl in *; [exfalso; lia|done|done]).
  split; [done|].
  intros k p Hk. assert (todo (workers s) = 0) as H0 by lia.
  pose proof (todo_0 _ H0 k p Hk) as Hr.
  destruct (CoordGone_all_sent _ _ _ HI Hcg) as (Hs & _).
  assert (sent p = 1) as Hsent.
  { apply (nsent_full (workers s) k); [|done].
    by rewrite <-(inv_tot _ _ _ HI), (inv_len _ _ _ HI). }
  by destruct p as [| |[]|[]|].
Qed.

Lemma commits_CoordGone tasks evs s :
  Inv tasks evs s -> commits evs <> [] -> coordinator s = Some CoordGone.
Proof.
  intros HI Hcm. pose proof (inv_coord _ _ _ HI) as Hco.
  destruct (coordinator s) as [[i fe|]|]; [|done|done].
  by destruct Hco as (_ & _ & ? & _).
Qed.

End ParallelFacts.

(** ** Slots of the result-bearing parallel future *)

Module WithResultFacts.
Import WithResult.

Section Facts.
Context {T : Type}.
Implicit Types (tasks : list (ctx -> @outcome T)) (vs : list T) (s : @state T).






End Facts.

End WithResultFacts.

(** * The claims *)

(** ** Single-task futures *)

(** C3, as amended.  When the parent context is not canceled before the commit
    (the goroutine's call of the task and its [cancel] are the first two steps
    of the schedule, whatever follows), [Wait] returns exactly the error [E]
    the task returned, unless [E] is a [SuccessResult] value, and it returns
    nil for a task that returned nil. *)
Theorem NewGoture_Wait_returns_task_error (fn : Task) tr s :
  Single.run fn (Single.Worker :: Single.Worker :: tr) (Single.NewGoture None) = Some s ->
  (forall E, fn None = Returns (Some E) -> E <> SuccessResult ->
             Single.wait s = Some (Some E)) /\
  (fn None = Returns None -> Single.wait s = Some None).
Proof.
  intros Hrun. split.
  - intros E Hfn HE. unfold Single.wait.
    rewrite (SingleFacts.commit_of_return _ _ _ _ Hfn Hrun). simpl.
    by destruct E.
  - intros Hfn. unfold Single.wait.
    by rewrite (SingleFacts.commit_of_return _ _ _ _ Hfn Hrun).
Qed.

Lemma NewGoture_Wait_returns_task_error_witness :
  Single.wait (Single.mkState (Some Canceled) (Some (ErrorString "boom"))
                              (Single.Gone Exited))
  = Some (Some (ErrorString "boom")).
Proof.
  refine (proj1 (NewGoture_Wait_returns_task_error
                   (fun _ => Returns (Some (ErrorString "boom")))
                   [Single.ParentCancel Canceled; Single.Worker] _ _)
                (ErrorString "boom") _ _).
  - reflexivity.
  - reflexivity.
  - discriminate.
Defined.

(** C3 fails as stated: a task that returns the non-nil error
    [SuccessResult{}] is seen by [Wait] as a success. *)
Lemma NewGoture_SuccessResult_error_lost :
  let fn : Task := fun _ => Returns (Some SuccessResult) in
  exists s,
    Single.run fn [Single.Worker; Single.Worker; Single.Worker] (Single.NewGoture None)
    = Some s /\
    Single.parentCtx s = None /\
    Single.wait s = Some None /\
    Single.wait s <> Some (Some SuccessResult).
Proof. simpl. eexists. split; [reflexivity|]. by simpl. Qed.

(** C8.  Once the cause of a future's context is committed, [Wait] returns, and
    every call made then or after any further steps returns the same value,
    the one [Wait] computes from the committed cause. *)
Theorem Wait_deterministic_once_committed :
  (forall (fn : Task) tr s s' cause,
     Single.localCtx s = Some cause -> Single.run fn tr s = Some s' ->
     Single.wait s = Wait (Some cause) /\ Single.wait s' = Single.wait s /\
     is_Some (Single.wait s')) /\
  (forall (tasks : list Task) tr s s' cause,
     Parallel.localCtx s = Some cause -> Parallel.run tasks tr s = Some s' ->
     Parallel.wait s = Wait (Some cause) /\ Parallel.wait s' = Parallel.wait s /\
     is_Some (Parallel.wait s')).
Proof.
  split.
  - intros fn tr s s' cause Hc Hrun.
    pose proof (SingleFacts.single_run_keeps_cause _ _ _ _ _ Hrun Hc) as Hc'.
    unfold Single.wait. rewrite Hc, Hc'. simpl. eauto.
  - intros tasks tr s s' cause Hc Hrun.
    pose proof (ParallelFacts.run_keeps_cause _ _ _ _ _ Hrun Hc) as Hc'.
    unfold Parallel.wait. rewrite Hc, Hc'. simpl. eauto.
Qed.

Lemma Wait_deterministic_once_committed_witness :
  Single.wait (Single.mkState (Some DeadlineExceeded) (Some (ErrorString "boom"))
                              (Single.Gone Exited))
  = Single.wait (Single.mkState None (Some (ErrorString "boom")) (Single.Deferred None)) /\
  Parallel.wait (Parallel.mkState (Some Canceled) (Some SuccessResult)
                                  [Parallel.Gone Exited] [] 1 (Some Parallel.CoordGone))
  = Parallel.wait (Parallel.mkState None (Some SuccessResult)
                                    [Parallel.Deferred None] [] 1 (Some Parallel.CoordGone)).
Proof.
  split.
  - refine (proj1 (proj2 (proj1 Wait_deterministic_once_committed
             (fun _ => Returns (Some (ErrorString "boom")))
             [Single.ParentCancel DeadlineExceeded; Single.Worker]
             (Single.mkState None (Some (ErrorString "boom")) (Single.Deferred None))
             _ (ErrorString "boom") _ _))); reflexivity.
  - refine (proj1 (proj2 (proj2 Wait_deterministic_once_committed
             [fun _ => Returns None]
             [Parallel.Worker 0; Parallel.ParentCancel Canceled]
             (Parallel.mkState None (Some SuccessResult)
                               [Parallel.Deferred None] [] 1 (Some Parallel.CoordGone))
             _ SuccessResult _ _))); reflexivity.
Defined.

(** ** Zero tasks *)

(** C5, as amended.  With a parent context that is not canceled at the time of
    the call, [NewParallelGoture] with zero tasks returns a future whose
    context is already committed with the success sentinel; no goroutine was
    started, no goroutine can ever take a step, and [Wait] returns nil, now
    and after anything that may follow. *)
Theorem NewParallelGoture_no_tasks :
  let s := Parallel.NewParallelGoture None [] in
  Parallel.localCtx s = Some SuccessResult /\
  Parallel.spawned s = 0 /\
  Parallel.wait s = Some None /\
  forall tr s', Parallel.run [] tr s = Some s' ->
    Parallel.wait s' = Some None /\ Parallel.spawned s' = 0 /\
    Forall (fun a => Parallel.is_ParentCancel a = true) tr.
Proof.
  change (Parallel.NewParallelGoture None [])
    with (Parallel.mkState None (Some SuccessResult) [] [] 0 None).
  cbv zeta. split_and!; [done..|].
  intros tr.
  generalize (@None err) at 1.
  induction tr as [|a tr IH]; intros p s' Hrun; simpl in Hrun.
  - simplify_eq. by split_and!.
  - destruct a as [k| |c]; simpl in Hrun; [done|done|].
    destruct p; [done|]. simpl in Hrun.
    destruct (IH _ _ Hrun) as (? & ? & ?). split_and!; [done..|].
    by constructor.
Qed.

Lemma NewParallelGoture_no_tasks_witness :
  Parallel.wait (Parallel.mkState (Some Canceled) (Some SuccessResult) [] [] 0 None)
  = Some None.
Proof.
  refine (proj1 (proj2 (proj2 (proj2 NewParallelGoture_no_tasks))
                   [Parallel.ParentCancel Canceled] _ _)).
  reflexivity.
Defined.

(** C5 fails as stated: with a parent context that is already canceled the
    context of the returned future carries the parent's cause, not the success
    sentinel, and [Wait] returns that cause. *)
Lemma NewParallelGoture_no_tasks_canceled_parent :
  let s := Parallel.NewParallelGoture (Some Canceled) [] in
  Parallel.localCtx s <> Some SuccessResult /\
  Parallel.wait s = Some (Some Canceled) /\
  Parallel.wait s <> Some None.
Proof. by simpl. Qed.

(** C10, as amended.  With zero tasks and a parent context already canceled
    with cause [c], the child context inherits [c] and the success commit of
    the library is lost; [Wait] returns [c], except that a [c] that is itself a
    [SuccessResult] value is unwrapped to nil. *)
Theorem NewParallelGoture_no_tasks_inherits_cause (c : err) :
  let s := Parallel.NewParallelGoture (Some c) [] in
  Parallel.localCtx s = Some c /\
  cancel (Some SuccessResult) (Parallel.localCtx s) = Some c /\
  Parallel.wait s = Some (if is_SuccessResult c then None else Some c) /\
  (c <> SuccessResult -> Parallel.wait s = Some (Some c)).
Proof.
  simpl. split_and!; [done..|]. intros Hc. unfold Parallel.wait. simpl.
  by destruct c.
Qed.

Lemma NewParallelGoture_no_tasks_inherits_cause_witness :
  Parallel.wait (Parallel.NewParallelGoture (Some DeadlineExceeded) [])
  = Some (Some DeadlineExceeded).
Proof.
  refine (proj2 (proj2 (proj2
            (NewParallelGoture_no_tasks_inherits_cause DeadlineExceeded))) _).
  discriminate.
Defined.

(** C10 fails as stated: a parent context canceled with the cause
    [SuccessResult{}] (the context of a future that has succeeded is one) makes
    [Wait] return nil, not the parent's cause. *)
Lemma NewParallelGoture_no_tasks_SuccessResult_parent :
  let s := Parallel.NewParallelGoture (Some SuccessResult) [] in
  Parallel.localCtx s = Some SuccessResult /\
  Parallel.wait s = Some None /\
  Parallel.wait s <> Some (Some SuccessResult).
Proof. by simpl. Qed.

(** ** Panics *)

Module PanicFacts.

Lemma run_cons (tasks : list Task) a tr s :
  Parallel.run tasks (a :: tr) s
  = match Parallel.step tasks a s with
    | Some s' => Parallel.run tasks tr s'
    | None => None
    end.
Proof. reflexivity. Qed.

Lemma events_cons (tasks : list Task) a tr s :
  Parallel.events tasks (a :: tr) s
  = match Parallel.step tasks a s with
    | Some s' => Parallel.observe tasks a s ++ Parallel.events tasks tr s'
    | None => []
    end.
Proof. reflexivity. Qed.

(** A task that panics with [V] while its goroutine finds room in the channel:
    after the call and the deferred [recoverCancelForParallel] the converted
    error is the newest value in the buffer, and the goroutine is gone
    normally. *)
Lemma panic_enqueued (tasks : list Task) s k (task : Task) V :
  Parallel.workers s !! k = Some Parallel.Ready ->
  tasks !! k = Some task ->
  task (Parallel.localCtx s) = Panics V ->
  length (Parallel.completed s) < Parallel.capacity s ->
  Parallel.run tasks [Parallel.Worker k; Parallel.Worker k] s
  = Some (Parallel.set_worker k (Parallel.Gone Exited)
            (Parallel.completed s ++ [Some (makeErrorFromPanic V)]) s) /\
  Parallel.sends (Parallel.events tasks [Parallel.Worker k; Parallel.Worker k] s)
  = [(k, Some (makeErrorFromPanic V))].
Proof.
  intros Hk Ht Hout Hroom.
  assert (Parallel.step tasks (Parallel.Worker k) s
          = Some (Parallel.set_worker k (Parallel.Deferred (Some V))
                    (Parallel.completed s) s)) as Hs1.
  { simpl. unfold Parallel.step_worker. by rewrite Hk, Ht, Hout. }
  assert (Parallel.step tasks (Parallel.Worker k)
            (Parallel.set_worker k (Parallel.Deferred (Some V)) (Parallel.completed s) s)
          = Some (Parallel.set_worker k (Parallel.Gone Exited)
                    (Parallel.completed s ++ [Some (makeErrorFromPanic V)]) s)) as Hs2.
  { simpl. unfold Parallel.step_worker. simpl.
    rewrite list_lookup_insert_eq by (by eapply lookup_lt_Some).
    rewrite recoverCancelForParallel_panic. unfold Parallel.send. simpl.
    rewrite decide_True by done. simpl.
    unfold Parallel.set_worker. simpl. by rewrite list_insert_insert_eq. }
  split.
  - by rewrite run_cons, Hs1, run_cons, Hs2.
  - rewrite events_cons, Hs1, events_cons, Hs2. simpl. rewrite Hk. simpl.
    rewrite list_lookup_insert_eq by (by eapply lookup_lt_Some).
    by rewrite recoverCancelForParallel_panic.
Qed.

End PanicFacts.

(** C4, as amended.  A panic of a task never takes the process down: no
    goroutine of either future is ever left with an unrecovered panic.  When
    the parent context is not canceled before the commit, the single-task
    future commits the converted value [makeErrorFromPanic V] directly and
    [Wait] returns what it computes from that cause: [V] itself when [V] is an
    error other than [SuccessResult{}] (nil when it is [SuccessResult{}]),
    otherwise an error built by [fmt.Errorf] whose message is the [%v]
    rendering of [V]; in every case the message of the converted error is the
    [%v] rendering of [V].  In the parallel future the boundary sends the
    converted error on the completion channel. *)
Theorem panic_boundary :
  (forall (fn : Task) p tr s v,
     Single.run fn tr (Single.NewGoture p) = Some s ->
     Single.worker s <> Single.Gone (Crashed v)) /\
  (forall (tasks : list Task) p tr s k v,
     length tasks <> 0 ->
     Parallel.run tasks tr (Parallel.NewParallelGoture p tasks) = Some s ->
     Parallel.workers s !! k <> Some (Parallel.Gone (Crashed v))) /\
  (forall (fn : Task) V tr s,
     fn None = Panics V ->
     Single.run fn (Single.Worker :: Single.Worker :: tr) (Single.NewGoture None) = Some s ->
     Single.localCtx s = Some (makeErrorFromPanic V) /\
     Single.wait s = Wait (Some (makeErrorFromPanic V))) /\
  (forall e, makeErrorFromPanic (AnyError e) = e /\
             (e <> SuccessResult -> Wait (Some (makeErrorFromPanic (AnyError e))) = Some (Some e)) /\
             (e = SuccessResult -> Wait (Some (makeErrorFromPanic (AnyError e))) = Some None)) /\
  (forall V, (forall e, V <> AnyError e) ->
             makeErrorFromPanic V = ErrorString (fmt_v V) /\
             Wait (Some (makeErrorFromPanic V)) = Some (Some (ErrorString (fmt_v V)))) /\
  (forall V, err_message (makeErrorFromPanic V) = fmt_v V) /\
  (forall (tasks : list Task) s k (task : Task) V,
     Parallel.workers s !! k = Some Parallel.Ready ->
     tasks !! k = Some task ->
     task (Parallel.localCtx s) = Panics V ->
     length (Parallel.completed s) < Parallel.capacity s ->
     Parallel.run tasks [Parallel.Worker k; Parallel.Worker k] s
     = Some (Parallel.set_worker k (Parallel.Gone Exited)
               (Parallel.completed s ++ [Some (makeErrorFromPanic V)]) s) /\
     Parallel.sends (Parallel.events tasks [Parallel.Worker k; Parallel.Worker k] s)
     = [(k, Some (makeErrorFromPanic V))]).
Proof.
  split_and!.
  - intros fn p tr s v Hrun. by apply (SingleFacts.single_run_no_crash _ _ _ _ Hrun).
  - intros tasks p tr s k v HN Hrun.
    apply (Parallel.inv_nocrash _ _ _ (ParallelFacts.Inv_run _ _ _ _ HN Hrun)).
  - intros fn V tr s Hfn Hrun. unfold Single.wait.
    by rewrite (SingleFacts.commit_of_panic _ _ _ _ Hfn Hrun).
  - intros e. split_and!; [done| |by intros ->]. by destruct e.
  - intros V HV. rewrite (makeErrorFromPanic_other _ HV). done.
  - intros V. by destruct V.
  - apply PanicFacts.panic_enqueued.
Qed.

Lemma panic_boundary_witness :
  Single.wait (Single.mkState (Some Canceled) (Some (ErrorString "42")) (Single.Gone Exited))
  = Some (Some (ErrorString "42")).
Proof.
  refine (proj2 (proj1 (proj2 (proj2 panic_boundary))
                   (fun _ => Panics (AnyInt 42))
                   (AnyInt 42)
                   [Single.ParentCancel Canceled] _ _ _)).
  - reflexivity.
  - reflexivity.
Defined.

(** C4 fails as stated: a task that panics with the error [SuccessResult{}] is
    seen by [Wait] as a success; formatting with [%v] gives the string ["42"]
    and the integer [42] the same message, so the payload is not preserved;
    and when the parent context is canceled before the goroutine's commit,
    [Wait] returns the parent's cause and nothing of the panic value. *)
Lemma panic_SuccessResult_observed_nil :
  (let fn : Task := fun _ => Panics (AnyError SuccessResult) in
   exists s,
     Single.run fn [Single.Worker; Single.Worker] (Single.NewGoture None) = Some s /\
     Single.parentCtx s = None /\
     Single.wait s = Some None) /\
  (err_message (makeErrorFromPanic (AnyString "42"))
   = err_message (makeErrorFromPanic (AnyInt 42)) /\
   AnyString "42" <> AnyInt 42) /\
  (let fn : Task := fun _ => Panics (AnyString "boom") in
   exists s,
     Single.run fn [Single.Worker; Single.ParentCancel Canceled; Single.Worker]
       (Single.NewGoture None) = Some s /\
     Single.worker s = Single.Gone Exited /\
     Single.wait s = Some (Some Canceled)).
Proof.
  split_and!; [|reflexivity|discriminate|].
  - simpl. eexists. split; [reflexivity|]. by simpl.
  - simpl. eexists. split; [reflexivity|]. by simpl.
Qed.

(** ** The aggregate of a parallel future *)

Module AggregateFacts.
Import Parallel.

Lemma Wait_cause_of firstError :
  Wait (cause_of firstError)
  = Some (match firstError with
          | Some e => if is_SuccessResult e then None else Some e
          | None => None
          end).
Proof. by destruct firstError. Qed.

(** [first_error] picks the oldest non-nil report; it is nil exactly when all
    reports are. *)
Lemma first_error_Some reports e :
  first_error reports = Some e <->
  exists older newer, reports = older ++ Some e :: newer /\ Forall (eq None) older.
Proof.
  split.
  - induction reports as [|[x|] reports IH]; simpl; intros H; [done| |].
    + simplify_eq. by exists [], reports.
    + destruct (IH H) as (older & newer & -> & Hall).
      exists (None :: older), newer. split; [done|]. by constructor.
  - intros (older & newer & -> & Hall).
    induction Hall as [|x older <- _ IH]; by simpl.
Qed.

Lemma first_error_None reports :
  first_error reports = None <-> Forall (eq None) reports.
Proof.
  induction reports as [|[x|] reports IH]; simpl.
  - split; [by constructor|done].
  - split; [done|]. by inversion 1.
  - rewrite IH. split; [by constructor|]. by inversion 1.
Qed.

(** With the parent context still open when the coordinator commits, the
    cause of the shared context is the coordinator's, for good. *)
Lemma commit_decides p (tasks : list Task) tr1 s1 tr2 s :
  length tasks <> 0 ->
  run tasks tr1 (NewParallelGoture p tasks) = Some s1 ->
  coordinator s1 = Some CoordGone ->
  parentCtx s1 = None ->
  run tasks tr2 s1 = Some s ->
  localCtx s
  = cause_of (first_error (arrivals (events tasks tr1 (NewParallelGoture p tasks)))).
Proof.
  intros HN Hrun1 Hc Hp Hrun2.
  pose proof (inv_coord _ _ _ (ParallelFacts.Inv_run _ _ _ _ HN Hrun1)) as Hco.
  rewrite Hc in Hco. destruct Hco as (_ & _ & _ & Hctx). specialize (Hctx Hp).
  destruct (first_error _) as [e|]; simpl in *;
    by eapply ParallelFacts.run_keeps_cause.
Qed.

(** With tasks that never call [runtime.Goexit], every schedule can be
    extended, without touching the parent context, to one in which the
    coordinator has committed and every goroutine is gone. *)
Lemma completion p (tasks : list Task) tr s :
  length tasks <> 0 ->
  no_goexit tasks ->
  run tasks tr (NewParallelGoture p tasks) = Some s ->
  exists tr' s',
    run tasks tr' s = Some s' /\
    forallb (fun a => negb (is_ParentCancel a)) tr' = true /\
    coordinator s' = Some CoordGone /\
    forall k, k < length tasks -> workers s' !! k = Some (Gone Exited).
Proof.
  intros HN Hno Hrun.
  pose proof (ParallelFacts.Inv_run _ _ _ _ HN Hrun) as HI.
  destruct (ParallelFacts.completion_from tasks _ _ s HI Hno (le_n _))
    as (tr' & s' & Hrun' & Hall & H0 & HI').
  destruct (ParallelFacts.measure_0 _ _ _ HI' H0) as (Hc & Hw).
  exists tr', s'. split_and!; [done..|].
  intros k Hk. rewrite <-(inv_len _ _ _ HI') in Hk.
  destruct (lookup_lt_is_Some_2 _ _ Hk) as [q Hq].
  by rewrite Hq, (Hw _ _ Hq).
Qed.

Lemma events_app (tasks : list Task) tr1 tr2 s s1 :
  run tasks tr1 s = Some s1 ->
  events tasks (tr1 ++ tr2) s = events tasks tr1 s ++ events tasks tr2 s1.
Proof.
  revert s. induction tr1 as [|a tr1 IH]; intros s Hrun; simpl in *.
  - by simplify_eq.
  - destruct (step tasks a s) as [s2|] eqn:Hs; [|done].
    by rewrite <-app_assoc, (IH _ Hrun).
Qed.

(** Whatever the tasks do, every schedule can be extended by steps of the
    goroutines alone to one in which each of them is gone: by returning or a
    recovered panic, with exactly one send behind it, or by [runtime.Goexit],
    with none. *)
Lemma goroutines_finish p (tasks : list Task) tr s :
  length tasks <> 0 ->
  run tasks tr (NewParallelGoture p tasks) = Some s ->
  exists tr' s',
    run tasks tr' s = Some s' /\
    forallb (fun a => negb (is_ParentCancel a)) tr' = true /\
    coordinator s' = coordinator s /\ parentCtx s' = parentCtx s /\
    localCtx s' = localCtx s /\
    forall k, k < length tasks ->
      (workers s' !! k = Some (Gone Exited) /\
       sends_by k (events tasks (tr ++ tr') (NewParallelGoture p tasks)) = 1) \/
      (workers s' !! k = Some (Gone Goexited) /\
       sends_by k (events tasks (tr ++ tr') (NewParallelGoture p tasks)) = 0 /\
       exists (task : Task) view, tasks !! k = Some task /\ task view = Goexits).
Proof.
  intros HN Hrun.
  pose proof (ParallelFacts.Inv_run _ _ _ _ HN Hrun) as HI.
  destruct (ParallelFacts.workers_finish tasks _ _ s HI (le_n _))
    as (tr' & s' & Hrun' & Hall & H0 & Hc & Hp & Hl & HI').
  exists tr', s'. split_and!; [done..|].
  intros k Hk. rewrite (events_app _ _ _ _ _ Hrun).
  rewrite (inv_by _ _ _ HI').
  rewrite <-(inv_len _ _ _ HI') in Hk.
  destruct (lookup_lt_is_Some_2 _ _ Hk) as [q Hq].
  pose proof (ParallelFacts.todo_0 _ H0 k q Hq) as Hr.
  pose proof (inv_pc _ _ _ HI' k) as Hpc. rewrite Hq in *.
  destruct q as [| | |[|v|]|]; try done.
  - by left.
  - by destruct (inv_nocrash _ _ _ HI' k v).
  - right. split_and!; [done..|].
    destruct Hpc as (task & view & Ht & _ & Hout). by exists task, view.
Qed.

Lemma first_error_elem reports e : first_error reports = Some e -> Some e ∈ reports.
Proof.
  intros (older & newer & -> & _)%first_error_Some.
  apply elem_of_app. right. by left.
Qed.

(** If every report is nil or [Some e] and [Some e] is among them, [e] is the
    first error whatever the order. *)
Lemma first_error_only reports e :
  Some e ∈ reports -> (forall r, r ∈ reports -> r = None \/ r = Some e) ->
  first_error reports = Some e.
Proof.
  induction reports as [|[x|] reports IH]; intros Hin Hall.
  - by apply elem_of_nil in Hin.
  - simpl. destruct (Hall (Some x)) as [?|?]; [by left|done|done].
  - simpl. apply IH.
    + by apply elem_of_cons in Hin as [?|?].
    + intros r Hr. apply Hall. by right.
Qed.

(** A goroutine with a send behind it has an entry among the sends. *)
Lemma sends_by_elem k evs : sends_by k evs <> 0 -> exists e, (k, e) ∈ sends evs.
Proof.
  unfold sends_by. intros Hne.
  destruct (filter (fun x => x.1 = k) (sends evs)) as [|[j e] l] eqn:Hf; [done|].
  assert ((j, e) ∈ filter (fun x => x.1 = k) (sends evs)) as Hin by (rewrite Hf; by left).
  apply list_elem_of_filter in Hin as [Hj Hin]. simpl in Hj. subst. by exists e.
Qed.

(** By the time the coordinator is gone the buffer is empty and every
    goroutine has its send behind it. *)
Lemma CoordGone_drained (tasks : list Task) evs s :
  Inv tasks evs s -> coordinator s = Some CoordGone ->
  completed s = [] /\ arrivals evs = (sends evs).*2 /\
  forall k, k < length tasks -> exists e, (k, e) ∈ sends evs.
Proof.
  intros HI Hc.
  destruct (ParallelFacts.CoordGone_all_sent _ _ _ HI Hc) as (Hs & Ha).
  pose proof (f_equal length (inv_chan _ _ _ HI)) as Hch.
  rewrite length_fmap, length_app in Hch.
  assert (completed s = []) as Hnil by (destruct (completed s); [done|simpl in Hch; lia]).
  split_and!; [done| |].
  - by rewrite (inv_chan _ _ _ HI), Hnil, app_nil_r.
  - intros k Hk. apply sends_by_elem. rewrite (inv_by _ _ _ HI).
    rewrite <-(inv_len _ _ _ HI) in Hk.
    destruct (lookup_lt_is_Some_2 _ _ Hk) as [q Hq]. rewrite Hq. simpl.
    rewrite (ParallelFacts.nsent_full (workers s) k q); [done| |done].
    rewrite <-(inv_tot _ _ _ HI), (inv_len _ _ _ HI). done.
Qed.

(** Steps of the goroutines and of the coordinator leave the parent context
    alone. *)
Lemma step_keeps_parent (tasks : list Task) a s s' :
  step tasks a s = Some s' -> is_ParentCancel a = false -> parentCtx s' = parentCtx s.
Proof.
  intros Hs Ha. destruct a as [k| |c]; [| |done]; simpl in Hs.
  - unfold step_worker, send in Hs.
    repeat (case_match; simplify_eq/=); done.
  - unfold step_coord in Hs.
    repeat (case_match; simplify_eq/=); done.
Qed.

(** A goroutine ended by [runtime.Goexit] stays that way. *)
Lemma Step_keeps_goexit (tasks : list Task) s ev s' k q :
  Parallel.Step tasks s ev s' ->
  workers s !! k = Some q -> q = Exiting \/ q = Gone Goexited ->
  exists q', workers s' !! k = Some q' /\ (q' = Exiting \/ q' = Gone Goexited).
Proof.
  intros Hst Hk Hq.
  destruct Hst as [j task Hj Ht|j e Hj Hroom|j v Hj Hroom|j Hj|j Hj| | |]; simpl;
    try (by exists q);
    (destruct (decide (j = k)) as [->|Hne];
     [|exists q; by rewrite list_lookup_insert_ne]);
    rewrite Hk in Hj; destruct Hq; simplify_eq.
  exists (Gone Goexited). split; [|by right].
  apply list_lookup_insert_eq. by eapply lookup_lt_Some.
Qed.

(** A goroutine ended by [runtime.Goexit] has sent nothing and never will, so
    with the parent context open [Wait] stays blocked for as long as the
    parent is not canceled. *)
Lemma goexit_blocks (tasks : list Task) tr' : forall evs s s' k q,
  Inv tasks evs s ->
  workers s !! k = Some q -> q = Exiting \/ q = Gone Goexited ->
  parentCtx s = None ->
  run tasks tr' s = Some s' ->
  forallb (fun a => negb (is_ParentCancel a)) tr' = true ->
  wait s' = None.
Proof.
  induction tr' as [|a tr' IH]; intros evs s s' k q HI Hk Hq Hp Hrun Hall; simpl in *.
  - simplify_eq.
    destruct (ParallelFacts.unsent_Draining _ _ _ _ _ HI Hk) as (i & fe & Hc & _);
      [by destruct Hq as [-> | ->]|].
    pose proof (inv_coord _ _ _ HI) as Hco. rewrite Hc in Hco.
    destruct Hco as (_ & _ & _ & _ & Hctx). unfold wait. by rewrite Hctx, Hp.
  - destruct (step tasks a s) as [s1|] eqn:Hs; [|done].
    apply andb_prop in Hall as [Ha Hall]. apply negb_true_iff in Ha.
    pose proof (ParallelFacts.step_Step _ _ _ _ Hs) as Hst.
    destruct (Step_keeps_goexit _ _ _ _ _ _ Hst Hk Hq) as (q' & Hk' & Hq').
    eapply (IH _ s1 s' k q'); try done.
    + by eapply ParallelFacts.Inv_step.
    + by rewrite (step_keeps_parent _ _ _ _ Hs Ha).
Qed.

End AggregateFacts.

(** C1, as amended.  With [N >= 1] tasks, by the time the coordinator is gone
    it has received exactly [N] reports and has made one commit, with the
    oldest non-nil report if there is one and with the success sentinel
    otherwise; it receives and commits nothing afterwards.  If the parent
    context was not canceled before that commit, the committed cause is the
    cause of the shared context from then on, and [Wait] returns that first
    error, or nil when all reports were nil or when the first error is a
    [SuccessResult] value. *)
Theorem NewParallelGoture_first_error_wins p (tasks : list Task) tr1 s1 :
  length tasks <> 0 ->
  Parallel.run tasks tr1 (Parallel.NewParallelGoture p tasks) = Some s1 ->
  Parallel.coordinator s1 = Some Parallel.CoordGone ->
  let evs := Parallel.events tasks tr1 (Parallel.NewParallelGoture p tasks) in
  let firstError := Parallel.first_error (Parallel.arrivals evs) in
  length (Parallel.arrivals evs) = length tasks /\
  (forall e, firstError = Some e <->
     exists older newer, Parallel.arrivals evs = older ++ Some e :: newer /\
                         Forall (eq None) older) /\
  (firstError = None <-> Forall (eq None) (Parallel.arrivals evs)) /\
  Parallel.commits evs
  = [match firstError with Some e => Some e | None => Some SuccessResult end] /\
  (forall tr2 s, Parallel.run tasks tr2 s1 = Some s ->
     Parallel.arrivals (Parallel.events tasks tr2 s1) = [] /\
     Parallel.commits (Parallel.events tasks tr2 s1) = []) /\
  (Parallel.parentCtx s1 = None ->
   forall tr2 s, Parallel.run tasks tr2 s1 = Some s ->
     Parallel.localCtx s
     = match firstError with Some e => Some e | None => Some SuccessResult end /\
     Parallel.wait s
     = Some (match firstError with
             | Some e => if is_SuccessResult e then None else Some e
             | None => None
             end)).
Proof.
  intros HN Hrun1 Hc evs firstError.
  pose proof (Parallel.inv_coord _ _ _ (ParallelFacts.Inv_run _ _ _ _ HN Hrun1)) as Hco.
  rewrite Hc in Hco. destruct Hco as (Hn & Hcm & _ & _).
  subst evs firstError. split_and!.
  - done.
  - intros e. apply AggregateFacts.first_error_Some.
  - apply AggregateFacts.first_error_None.
  - rewrite Hcm. unfold Parallel.cause_of. by destruct (Parallel.first_error _).
  - intros tr2 s Hrun2.
    by destruct (ParallelFacts.run_CoordGone _ _ _ _ Hrun2 Hc) as (_ & ? & ?).
  - intros Hp tr2 s Hrun2.
    pose proof (AggregateFacts.commit_decides _ _ _ _ _ _ HN Hrun1 Hc Hp Hrun2) as Hctx.
    unfold Parallel.wait. rewrite Hctx, AggregateFacts.Wait_cause_of.
    split; [|done]. unfold Parallel.cause_of. by destruct (Parallel.first_error _).
Qed.

Lemma NewParallelGoture_first_error_wins_witness :
  Parallel.wait
    (Parallel.mkState (Some Canceled) (Some (ErrorString "late"))
       [Parallel.Deferred None; Parallel.Deferred None; Parallel.Gone Exited]
       [] 3 (Some Parallel.CoordGone))
  = Some (Some (ErrorString "late")).
Proof.
  pose proof (NewParallelGoture_first_error_wins None
       [fun _ => Returns (Some (ErrorString "early"));
        fun _ => Returns None;
        fun _ => Panics (AnyString "late")]
       [Parallel.Worker 2; Parallel.Worker 1; Parallel.Worker 0;
        Parallel.Worker 1; Parallel.Worker 2; Parallel.Worker 0;
        Parallel.Coordinator; Parallel.Coordinator; Parallel.Coordinator;
        Parallel.Coordinator]
       (Parallel.mkState None (Some (ErrorString "late"))
          [Parallel.Deferred None; Parallel.Deferred None; Parallel.Gone Exited]
          [] 3 (Some Parallel.CoordGone))) as H.
  assert (length [fun _ : option err => Returns (Some (ErrorString "early"));
                  fun _ => Returns None;
                  fun _ => Panics (AnyString "late")] <> 0) as HN by (simpl; discriminate).
  destruct (H HN eq_refl eq_refl) as (_ & _ & _ & _ & _ & Hwait).
  exact (proj2 (Hwait eq_refl [Parallel.ParentCancel Canceled] _ eq_refl)).
Defined.

(** C1 fails as stated: the only report is the non-nil error
    [SuccessResult{}]; the coordinator commits it, and [Wait] returns nil
    instead of that first error. *)
Lemma first_error_SuccessResult_observed_nil :
  let tasks : list Task := [fun _ => Returns (Some SuccessResult)] in
  let tr := [Parallel.Worker 0; Parallel.Worker 0; Parallel.Coordinator;
             Parallel.Coordinator] in
  let evs := Parallel.events tasks tr (Parallel.NewParallelGoture None tasks) in
  exists s,
    Parallel.run tasks tr (Parallel.NewParallelGoture None tasks) = Some s /\
    Parallel.arrivals evs = [Some SuccessResult] /\
    Parallel.commits evs = [Some SuccessResult] /\
    Parallel.parentCtx s = None /\
    Parallel.wait s = Some None /\
    Parallel.wait s <> Some (Parallel.first_error (Parallel.arrivals evs)).
Proof. eexists. split; [reflexivity|]. by vm_compute. Qed.

(** C9.  The exported [SuccessResult{}] is a non-nil error that [Wait] unwraps
    to nil.  There is a run of two tasks, one returning [SuccessResult{}] and
    reported first, the other returning a genuine error, that [Wait] observes
    as a success.  In general, whenever the first non-nil report is
    [SuccessResult{}] and the parent context is not canceled before the
    commit, the coordinator commits [SuccessResult{}] and [Wait] returns nil,
    whatever the later reports are; and a single task that returns or panics
    with [SuccessResult{}] is observed as a success too. *)
Theorem SuccessResult_masks_failure :
  (Some SuccessResult <> (None : error) /\ err_message SuccessResult = "" /\
   Wait (Some SuccessResult) = Some None) /\
  (exists (tasks : list Task) tr s,
     Parallel.run tasks tr (Parallel.NewParallelGoture None tasks) = Some s /\
     tasks = [fun _ => Returns (Some SuccessResult);
              fun _ => Returns (Some (ErrorString "disk full"))] /\
     Parallel.arrivals (Parallel.events tasks tr (Parallel.NewParallelGoture None tasks))
     = [Some SuccessResult; Some (ErrorString "disk full")] /\
     Parallel.commits (Parallel.events tasks tr (Parallel.NewParallelGoture None tasks))
     = [Some SuccessResult] /\
     Parallel.localCtx s = Some SuccessResult /\
     Parallel.wait s = Some None) /\
  (forall p (tasks : list Task) tr1 s1 tr2 s,
     length tasks <> 0 ->
     Parallel.run tasks tr1 (Parallel.NewParallelGoture p tasks) = Some s1 ->
     Parallel.coordinator s1 = Some Parallel.CoordGone ->
     Parallel.parentCtx s1 = None ->
     Parallel.first_error
       (Parallel.arrivals (Parallel.events tasks tr1 (Parallel.NewParallelGoture p tasks)))
     = Some SuccessResult ->
     Parallel.run tasks tr2 s1 = Some s ->
     Parallel.commits (Parallel.events tasks tr1 (Parallel.NewParallelGoture p tasks))
     = [Some SuccessResult] /\
     Parallel.localCtx s = Some SuccessResult /\
     Parallel.wait s = Some None) /\
  (forall (fn : Task) tr s,
     fn None = Returns (Some SuccessResult) \/ fn None = Panics (AnyError SuccessResult) ->
     Single.run fn (Single.Worker :: Single.Worker :: tr) (Single.NewGoture None) = Some s ->
     Single.localCtx s = Some SuccessResult /\ Single.wait s = Some None).
Proof.
  split_and!; try done.
  - exists [fun _ => Returns (Some SuccessResult);
            fun _ => Returns (Some (ErrorString "disk full"))],
           [Parallel.Worker 1; Parallel.Worker 0; Parallel.Worker 0; Parallel.Worker 1;
            Parallel.Coordinator; Parallel.Coordinator; Parallel.Coordinator].
    eexists. split; [reflexivity|]. by vm_compute.
  - intros p tasks tr1 s1 tr2 s HN Hrun1 Hc Hp Hfirst Hrun2.
    pose proof (Parallel.inv_coord _ _ _ (ParallelFacts.Inv_run _ _ _ _ HN Hrun1)) as Hco.
    rewrite Hc, Hfirst in Hco. destruct Hco as (_ & Hcm & _ & _).
    pose proof (AggregateFacts.commit_decides _ _ _ _ _ _ HN Hrun1 Hc Hp Hrun2) as Hctx.
    rewrite Hfirst in Hctx. unfold Parallel.wait. by rewrite Hctx.
  - intros fn tr s [Hfn|Hfn] Hrun; unfold Single.wait.
    + by rewrite (SingleFacts.commit_of_return _ _ _ _ Hfn Hrun).
    + by rewrite (SingleFacts.commit_of_panic _ _ _ _ Hfn Hrun).
Qed.

Lemma SuccessResult_masks_failure_witness :
  Parallel.wait
    (Parallel.mkState None (Some SuccessResult)
       [Parallel.Gone Exited; Parallel.Gone Exited; Parallel.Gone Exited]
       [] 3 (Some Parallel.CoordGone))
  = Some None.
Proof.
  pose proof (proj1 (proj2 (proj2 SuccessResult_masks_failure)) None
       [fun _ => Returns None;
        fun _ => Panics (AnyError SuccessResult);
        fun _ => Panics (AnyString "index out of range")]
       [Parallel.Worker 0; Parallel.Worker 1; Parallel.Worker 2;
        Parallel.Worker 0; Parallel.Worker 1; Parallel.Worker 2;
        Parallel.Coordinator; Parallel.Coordinator; Parallel.Coordinator;
        Parallel.Coordinator]
       (Parallel.mkState None (Some SuccessResult)
          [Parallel.Deferred None; Parallel.Gone Exited; Parallel.Gone Exited]
          [] 3 (Some Parallel.CoordGone))
       [Parallel.Worker 0]
       (Parallel.mkState None (Some SuccessResult)
          [Parallel.Gone Exited; Parallel.Gone Exited; Parallel.Gone Exited]
          [] 3 (Some Parallel.CoordGone))) as H.
  assert (length [fun _ : option err => Returns None;
                  fun _ => Panics (AnyError SuccessResult);
                  fun _ => Panics (AnyString "index out of range")] <> 0) as HN
      by (simpl; discriminate).
  exact (proj2 (proj2 (H HN eq_refl eq_refl eq_refl eq_refl eq_refl))).
Defined.

(** C2, as amended.  With [N >= 1] tasks, in every state a schedule can
    reach: the coordinator has made its commit only if all [N] goroutines have
    sent their report and all [N] reports were received; a canceled shared
    context carries the parent's cause unless all [N] have reported, and every
    task was called with a context that was open or canceled by the parent;
    each goroutine that is not gone can take its next step, and by steps of
    the goroutines alone the schedule extends to one where all [N] are gone,
    each by returning, by a recovered panic or by [runtime.Goexit]; when no
    task calls [runtime.Goexit] it extends to one where the coordinator is
    gone too and [Wait] returns.  [Wait] returns, with whatever result, only
    after all [N] have reported or after the parent was canceled.  When a
    task has reported a failure, the coordinator is gone and the parent is
    open, the first non-nil report [e1] exists and [Wait] returns it from then
    on, as nil when [e1] is a [SuccessResult] value and as the non-nil [e1]
    otherwise.  While a goroutine ended by [runtime.Goexit] is among the [N]
    and the parent stays open, [Wait] stays blocked. *)
Theorem siblings_run_to_completion p (tasks : list Task) tr s :
  length tasks <> 0 ->
  Parallel.run tasks tr (Parallel.NewParallelGoture p tasks) = Some s ->
  let evs := Parallel.events tasks tr (Parallel.NewParallelGoture p tasks) in
  (Parallel.commits evs <> [] ->
     length (Parallel.sends evs) = length tasks /\
     length (Parallel.arrivals evs) = length tasks) /\
  (forall cause, Parallel.localCtx s = Some cause ->
     Parallel.parentCtx s = Some cause \/
     (Parallel.commits evs <> [] /\ length (Parallel.sends evs) = length tasks)) /\
  (forall k view, (k, view) ∈ Parallel.calls evs ->
     view = None \/ view = Parallel.parentCtx s) /\
  (forall k q, Parallel.workers s !! k = Some q -> (forall x, q <> Parallel.Gone x) ->
     is_Some (Parallel.step tasks (Parallel.Worker k) s)) /\
  (exists tr' s',
     Parallel.run tasks tr' s = Some s' /\
     forallb (fun a => negb (Parallel.is_ParentCancel a)) tr' = true /\
     Parallel.coordinator s' = Parallel.coordinator s /\
     Parallel.parentCtx s' = Parallel.parentCtx s /\
     Parallel.localCtx s' = Parallel.localCtx s /\
     forall k, k < length tasks ->
       Parallel.workers s' !! k = Some (Parallel.Gone Exited) \/
       (Parallel.workers s' !! k = Some (Parallel.Gone Goexited) /\
        exists (task : Task) view, tasks !! k = Some task /\ task view = Goexits)) /\
  (Parallel.no_goexit tasks ->
   exists tr' s',
     Parallel.run tasks tr' s = Some s' /\
     forallb (fun a => negb (Parallel.is_ParentCancel a)) tr' = true /\
     Parallel.coordinator s' = Some Parallel.CoordGone /\
     (forall k, k < length tasks -> Parallel.workers s' !! k = Some (Parallel.Gone Exited)) /\
     is_Some (Parallel.wait s')) /\
  (forall r, Parallel.wait s = Some r ->
     Parallel.parentCtx s <> None \/
     (length (Parallel.sends evs) = length tasks /\
      length (Parallel.arrivals evs) = length tasks)) /\
  (forall e, Parallel.wait s = Some (Some e) ->
     Parallel.parentCtx s = Some e \/
     (length (Parallel.sends evs) = length tasks /\
      length (Parallel.arrivals evs) = length tasks)) /\
  (forall k e, (k, Some e) ∈ Parallel.sends evs ->
     Parallel.coordinator s = Some Parallel.CoordGone ->
     Parallel.parentCtx s = None ->
     exists e1, Parallel.first_error (Parallel.arrivals evs) = Some e1 /\
       forall tr2 s2, Parallel.run tasks tr2 s = Some s2 ->
         Parallel.wait s2 = Some (if is_SuccessResult e1 then None else Some e1)) /\
  (forall k q, Parallel.workers s !! k = Some q ->
     q = Parallel.Exiting \/ q = Parallel.Gone Goexited ->
     Parallel.parentCtx s = None ->
     forall tr2 s2, Parallel.run tasks tr2 s = Some s2 ->
       forallb (fun a => negb (Parallel.is_ParentCancel a)) tr2 = true ->
       Parallel.wait s2 = None).
Proof.
  intros HN Hrun evs. subst evs.
  pose proof (ParallelFacts.Inv_run _ _ _ _ HN Hrun) as HI.
  pose proof (Parallel.inv_coord _ _ _ HI) as Hco.
  assert (forall cause, Parallel.localCtx s = Some cause ->
            Parallel.parentCtx s = Some cause \/
            Parallel.coordinator s = Some Parallel.CoordGone) as Hctx.
  { intros cause Hcause. destruct (Parallel.coordinator s) as [[i fe|]|]; [|by right|done].
    left. destruct Hco as (_ & _ & _ & _ & <-). done. }
  split_and!.
  - intros Hcm. apply (ParallelFacts.CoordGone_all_sent _ _ _ HI).
    by apply (ParallelFacts.commits_CoordGone _ _ _ HI).
  - intros cause Hcause. destruct (Hctx _ Hcause) as [?|Hc]; [by left|right].
    split; [|by apply (ParallelFacts.CoordGone_all_sent _ _ _ HI)].
    rewrite Hc in Hco. destruct Hco as (_ & -> & _). done.
  - apply (Parallel.inv_calls _ _ _ HI).
  - intros k q Hk Hq.
    destruct (ParallelFacts.worker_enabled _ _ _ _ _ HI Hk) as (s' & Hs & _); [|by eauto].
    destruct q; try done. by destruct (Hq x).
  - destruct (AggregateFacts.goroutines_finish p tasks tr s HN Hrun)
      as (tr' & s' & Hrun' & Hall & Hc & Hp & Hl & Hw).
    exists tr', s'. split_and!; try done.
    intros k Hk. destruct (Hw k Hk) as [[? _]|(? & _ & ?)]; [by left|by right].
  - intros Hno.
    destruct (AggregateFacts.completion p tasks tr s HN Hno Hrun)
      as (tr' & s' & Hrun' & Hall & Hc & Hw).
    exists tr', s'. split_and!; try done.
    assert (Parallel.run tasks (tr ++ tr') (Parallel.NewParallelGoture p tasks) = Some s')
      as Hrun2 by (by rewrite ParallelFacts.run_app, Hrun).
    pose proof (Parallel.inv_coord _ _ _ (ParallelFacts.Inv_run _ _ _ _ HN Hrun2)) as Hco'.
    rewrite Hc in Hco'. destruct Hco' as (_ & _ & [c Hcause] & _).
    unfold Parallel.wait. rewrite Hcause. simpl. by destruct (is_SuccessResult c).
  - intros r Hw. unfold Parallel.wait in Hw.
    destruct (Parallel.localCtx s) as [cause|] eqn:Hcause; [|done].
    destruct (Hctx _ eq_refl) as [Hp|Hc]; [left; by rewrite Hp|right].
    by apply (ParallelFacts.CoordGone_all_sent _ _ _ HI).
  - intros e Hw. unfold Parallel.wait in Hw.
    destruct (Parallel.localCtx s) as [cause|] eqn:Hcause; [|done].
    assert (cause = e) as -> by (destruct cause; simpl in Hw; by simplify_eq).
    destruct (Hctx _ eq_refl) as [?|Hc]; [by left|right].
    by apply (ParallelFacts.CoordGone_all_sent _ _ _ HI).
  - intros k e Hin Hc Hp.
    destruct (AggregateFacts.CoordGone_drained _ _ _ HI Hc) as (_ & Harr & _).
    assert (Some e ∈ Parallel.arrivals
              (Parallel.events tasks tr (Parallel.NewParallelGoture p tasks))) as Hin'.
    { rewrite Harr. apply list_elem_of_fmap. by exists (k, Some e). }
    destruct (Parallel.first_error _) as [e1|] eqn:Hfe.
    2: { apply AggregateFacts.first_error_None in Hfe.
         rewrite Forall_forall in Hfe. by specialize (Hfe _ Hin'). }
    exists e1. split; [done|]. intros tr2 s2 Hrun2.
    pose proof (AggregateFacts.commit_decides _ _ _ _ _ _ HN Hrun Hc Hp Hrun2) as Hcause.
    unfold Parallel.wait. by rewrite Hcause, Hfe.
  - intros k q Hk Hq Hp tr2 s2 Hrun2 Hall.
    by apply (AggregateFacts.goexit_blocks tasks tr2 _ s s2 k q HI).
Qed.

Lemma siblings_run_to_completion_witness :
  Parallel.wait
    (Parallel.mkState None (Some (ErrorString "boom"))
       [Parallel.Gone Exited; Parallel.Gone Exited] [] 2 (Some Parallel.CoordGone))
  = Some (Some (ErrorString "boom")).
Proof.
  pose proof (siblings_run_to_completion None
       [fun _ => Returns (Some (ErrorString "boom")); fun _ => Returns None]
       [Parallel.Worker 1; Parallel.Worker 0; Parallel.Worker 1; Parallel.Worker 0;
        Parallel.Worker 0; Parallel.Worker 1;
        Parallel.Coordinator; Parallel.Coordinator; Parallel.Coordinator]
       (Parallel.mkState None (Some (ErrorString "boom"))
          [Parallel.Gone Exited; Parallel.Gone Exited] [] 2 (Some Parallel.CoordGone))) as H.
  assert (length [fun _ : option err => Returns (Some (ErrorString "boom"));
                  fun _ => Returns None] <> 0) as HN by (simpl; discriminate).
  destruct (H HN eq_refl) as (_ & _ & _ & _ & _ & _ & _ & _ & Hfail & _).
  destruct (Hfail 0 (ErrorString "boom")) as (e1 & Hfe & Hw);
    [vm_compute; apply list_elem_of_further, list_elem_of_here|reflexivity|reflexivity|].
  vm_compute in Hfe. injection Hfe as <-.
  exact (Hw [] _ eq_refl).
Defined.

(** C2 fails as stated.  First run: task 0 fails with a genuine error, task 1
    returns [SuccessResult{}] and reports first; all [N] have reported, the
    coordinator is gone, the parent is open, and [Wait] returns nil.  Second
    run: task 0 fails, task 1 calls [runtime.Goexit]; both goroutines are gone,
    only one report was ever sent, no goroutine and not the coordinator can
    take a step, and [Wait] stays blocked. *)
Lemma siblings_failure_not_observed :
  (let tasks : list Task :=
     [fun _ => Returns (Some (ErrorString "boom")); fun _ => Returns (Some SuccessResult)] in
   let tr := [Parallel.Worker 1; Parallel.Worker 1; Parallel.Worker 1;
              Parallel.Worker 0; Parallel.Worker 0; Parallel.Worker 0;
              Parallel.Coordinator; Parallel.Coordinator; Parallel.Coordinator] in
   let evs := Parallel.events tasks tr (Parallel.NewParallelGoture None tasks) in
   exists s,
     Parallel.run tasks tr (Parallel.NewParallelGoture None tasks) = Some s /\
     Parallel.sends evs = [(1, Some SuccessResult); (0, Some (ErrorString "boom"))] /\
     Parallel.workers s = [Parallel.Gone Exited; Parallel.Gone Exited] /\
     Parallel.coordinator s = Some Parallel.CoordGone /\
     Parallel.parentCtx s = None /\
     Parallel.wait s = Some None) /\
  (let tasks : list Task :=
     [fun _ => Returns (Some (ErrorString "boom")); fun _ => Goexits] in
   let tr := [Parallel.Worker 0; Parallel.Worker 0; Parallel.Worker 0;
              Parallel.Worker 1; Parallel.Worker 1; Parallel.Coordinator] in
   let evs := Parallel.events tasks tr (Parallel.NewParallelGoture None tasks) in
   exists s,
     Parallel.run tasks tr (Parallel.NewParallelGoture None tasks) = Some s /\
     Parallel.sends evs = [(0, Some (ErrorString "boom"))] /\
     Parallel.workers s = [Parallel.Gone Exited; Parallel.Gone Goexited] /\
     Parallel.step tasks (Parallel.Worker 0) s = None /\
     Parallel.step tasks (Parallel.Worker 1) s = None /\
     Parallel.step tasks Parallel.Coordinator s = None /\
     Parallel.parentCtx s = None /\
     Parallel.wait s = None).
Proof. split; (eexists; split; [reflexivity|]; by vm_compute). Qed.

(** C6, as amended.  With [N >= 1] tasks the completion channel has capacity
    [N]; each goroutine sends at most one value, and that value is what its
    task returned or the conversion of what it panicked with; a goroutine that
    is gone has sent exactly one value when its task returned or panicked, and
    none when its task ended it with [runtime.Goexit]; so at most [N] values
    are ever sent, exactly [N] when all goroutines are gone by returning or by
    a recovered panic, which is every way of being gone when no task calls
    [runtime.Goexit].  A goroutine that stands at a send finds room in the
    buffer and its send goes through; every goroutine that is not gone takes
    its next step, and by such steps alone every schedule extends to one where
    each goroutine is gone with its one send, or by [runtime.Goexit] with
    none. *)
Theorem completion_channel_never_blocks p (tasks : list Task) tr s :
  length tasks <> 0 ->
  Parallel.run tasks tr (Parallel.NewParallelGoture p tasks) = Some s ->
  let evs := Parallel.events tasks tr (Parallel.NewParallelGoture p tasks) in
  Parallel.capacity s = length tasks /\
  length (Parallel.workers s) = length tasks /\
  (forall k, Parallel.sends_by k evs <= 1) /\
  (forall k x, Parallel.workers s !! k = Some (Parallel.Gone x) ->
     (x = Exited /\ Parallel.sends_by k evs = 1) \/
     (x = Goexited /\ Parallel.sends_by k evs = 0 /\
      exists (task : Task) view,
        tasks !! k = Some task /\ (k, view) ∈ Parallel.calls evs /\
        task view = Goexits)) /\
  (forall k e, (k, e) ∈ Parallel.sends evs ->
     exists (task : Task) view,
       tasks !! k = Some task /\ (k, view) ∈ Parallel.calls evs /\
       ((task view = Returns e) \/
        (exists v, task view = Panics v /\ e = Some (makeErrorFromPanic v)))) /\
  length (Parallel.sends evs) <= Parallel.capacity s /\
  ((forall k, k < length tasks -> Parallel.workers s !! k = Some (Parallel.Gone Exited)) ->
     length (Parallel.sends evs) = Parallel.capacity s) /\
  (Parallel.no_goexit tasks ->
   (forall k, k < length tasks -> exists x, Parallel.workers s !! k = Some (Parallel.Gone x)) ->
     length (Parallel.sends evs) = Parallel.capacity s) /\
  (forall k q, Parallel.workers s !! k = Some q ->
     (exists e, q = Parallel.Sending e) \/ (exists v, q = Parallel.Deferred (Some v)) ->
     length (Parallel.completed s) < Parallel.capacity s /\
     exists s', Parallel.step tasks (Parallel.Worker k) s = Some s' /\
                length (Parallel.completed s') = S (length (Parallel.completed s))) /\
  (forall k q, Parallel.workers s !! k = Some q -> (forall x, q <> Parallel.Gone x) ->
     exists s', Parallel.step tasks (Parallel.Worker k) s = Some s' /\
                Parallel.todo (Parallel.workers s') < Parallel.todo (Parallel.workers s)) /\
  (exists tr' s',
     Parallel.run tasks tr' s = Some s' /\
     forallb (fun a => negb (Parallel.is_ParentCancel a)) tr' = true /\
     Parallel.coordinator s' = Parallel.coordinator s /\
     forall k, k < length tasks ->
       (Parallel.workers s' !! k = Some (Parallel.Gone Exited) /\
        Parallel.sends_by k
          (Parallel.events tasks (tr ++ tr') (Parallel.NewParallelGoture p tasks)) = 1) \/
       (Parallel.workers s' !! k = Some (Parallel.Gone Goexited) /\
        Parallel.sends_by k
          (Parallel.events tasks (tr ++ tr') (Parallel.NewParallelGoture p tasks)) = 0 /\
        exists (task : Task) view, tasks !! k = Some task /\ task view = Goexits)).
Proof.
  intros HN Hrun evs. subst evs.
  pose proof (ParallelFacts.Inv_run _ _ _ _ HN Hrun) as HI.
  destruct HI as [Hlen Hcap Hchan Htot Hby Hcoord Hcrash Hcalls Hpc Hsends].
  pose proof (Parallel.mkInv _ _ _ Hlen Hcap Hchan Htot Hby Hcoord Hcrash Hcalls Hpc Hsends)
    as HI.
  split_and!; try done.
  - intros k. rewrite Hby. destruct (Parallel.workers s !! k) as [q|]; simpl; [|lia].
    apply ParallelFacts.sent_le.
  - intros k x Hk. rewrite Hby, Hk. simpl.
    destruct x as [|v|]; [by left|by destruct (Hcrash k v)|right].
    split_and!; [done..|]. specialize (Hpc k). by rewrite Hk in Hpc.
  - intros k e Hin. destruct (Hsends k e Hin) as (task & view & Ht & Hc & He).
    exists task, view. split_and!; [done..|].
    destruct (task view) as [e'|v|]; simpl in He; simplify_eq; eauto.
  - rewrite Htot, Hcap, <-Hlen. apply ParallelFacts.nsent_le.
  - intros Hall. rewrite Htot, Hcap, <-Hlen. apply ParallelFacts.nsent_all.
    intros k q Hk. rewrite (Hall k) in Hk; [by simplify_eq|].
    rewrite <-Hlen. by eapply lookup_lt_Some.
  - intros Hno Hall. rewrite Htot, Hcap, <-Hlen. apply ParallelFacts.nsent_all.
    intros k q Hk. destruct (Hall k) as [x Hx].
    { rewrite <-Hlen. by eapply lookup_lt_Some. }
    apply (ParallelFacts.gone_sent _ _ _ _ _ HI Hno Hk). by simplify_eq.
  - intros k q Hk Hq.
    assert (Parallel.sent q = 0) as Hs by (by destruct Hq as [[e ->]|[v ->]]).
    pose proof (ParallelFacts.unsent_room _ _ _ _ _ HI Hk Hs) as Hroom.
    split; [done|]. simpl. unfold Parallel.step_worker, Parallel.send. rewrite Hk.
    destruct Hq as [[e ->]|[v ->]].
    + rewrite decide_True by done. simpl.
      eexists. split; [by destruct (tasks !! k)|]. simpl. rewrite length_app. simpl. lia.
    + rewrite recoverCancelForParallel_panic, decide_True by done. simpl.
      eexists. split; [by destruct (tasks !! k)|]. simpl. rewrite length_app. simpl. lia.
  - intros k q Hk Hq.
    destruct (ParallelFacts.worker_enabled _ _ _ _ _ HI Hk) as (s' & Hs & Hd & _).
    { destruct q; try done. by destruct (Hq x). }
    by exists s'.
  - destruct (AggregateFacts.goroutines_finish p tasks tr s HN Hrun)
      as (tr' & s' & Hrun' & Hall & Hc & _ & _ & Hw).
    by exists tr', s'.
Qed.

Lemma completion_channel_never_blocks_witness :
  length [Some (ErrorString "boom")]
  < Parallel.capacity
      (Parallel.mkState None None
         [Parallel.Deferred None; Parallel.Deferred (Some (AnyInt 7))]
         [Some (ErrorString "boom")] 2 (Some (Parallel.Draining 0 None))).
Proof.
  pose proof (completion_channel_never_blocks None
       [fun _ => Returns (Some (ErrorString "boom")); fun _ => Panics (AnyInt 7)]
       [Parallel.Worker 0; Parallel.Worker 1; Parallel.Worker 0]
       (Parallel.mkState None None
          [Parallel.Deferred None; Parallel.Deferred (Some (AnyInt 7))]
          [Some (ErrorString "boom")] 2 (Some (Parallel.Draining 0 None)))) as H.
  assert (length [fun _ : option err => Returns (Some (ErrorString "boom"));
                  fun _ => Panics (AnyInt 7)] <> 0) as HN by (simpl; discriminate).
  destruct (H HN eq_refl) as (_ & _ & _ & _ & _ & _ & _ & _ & Hroom & _).
  refine (proj1 (Hroom 1 (Parallel.Deferred (Some (AnyInt 7))) eq_refl _)).
  right. by exists (AnyInt 7).
Defined.

(** C6 fails as stated: task 1 ends its goroutine with [runtime.Goexit]; the
    deferred helper runs with nothing to recover and the send of the task's
    result is never reached.  Both goroutines are gone, goroutine 1 has sent
    no value, and one value was sent into a channel of capacity two. *)
Lemma goexit_goroutine_sends_nothing :
  let tasks : list Task := [fun _ => Returns None; fun _ => Goexits] in
  let tr := [Parallel.Worker 0; Parallel.Worker 0; Parallel.Worker 0;
             Parallel.Worker 1; Parallel.Worker 1] in
  let evs := Parallel.events tasks tr (Parallel.NewParallelGoture None tasks) in
  exists s,
    Parallel.run tasks tr (Parallel.NewParallelGoture None tasks) = Some s /\
    Parallel.workers s = [Parallel.Gone Exited; Parallel.Gone Goexited] /\
    Parallel.sends_by 1 evs = 0 /\
    Parallel.sends evs = [(0, None)] /\
    Parallel.capacity s = 2.
Proof. eexists. split; [reflexivity|]. by vm_compute. Qed.

(** ** Results in submission order *)




(** * Further properties of the code *)

(** ** [NewGoture] *)

Module SingleInvFacts.
Import Single.

Lemma single_Inv_init (fn : Task) p : Inv fn (NewGoture p).
Proof. reflexivity. Qed.

Lemma single_Inv_step (fn : Task) a s s' : step fn a s = Some s' -> Inv fn s -> Inv fn s'.
Proof.
  unfold Inv. intros Hstep HI. destruct a as [|c]; simpl in Hstep.
  - destruct (worker s) as [|[e|]|[v|]|[|v|]|] eqn:Hw; simplify_eq/=.
    + destruct (fn (localCtx s)) as [e|v|] eqn:Hout; simplify_eq/=;
        (split; [done|]); exists (localCtx s); (split; [by right|done]).
    + destruct HI as (Hctx & view & Hview & Hout). rewrite Hctx.
      destruct (parentCtx s) as [c|] eqn:Hp; simpl.
      * exists c. split; [done|]. by left.
      * exists e. split; [done|]. right. exists view. by rewrite Hout.
    + destruct HI as (Hctx & view & Hview & Hout). rewrite Hctx.
      destruct (parentCtx s) as [c|] eqn:Hp; simpl.
      * exists c. split; [done|]. by left.
      * exists SuccessResult. split; [done|]. right. exists view. by rewrite Hout.
    + rewrite recoverCancel_panic in Hstep. simplify_eq/=.
      destruct HI as (Hctx & view & Hview & Hout). rewrite Hctx.
      destruct (parentCtx s) as [c|] eqn:Hp; simpl.
      * exists c. split; [done|]. by left.
      * exists (makeErrorFromPanic v). split; [done|]. right. exists view.
        by rewrite Hout.
    + done.
    + done.
  - destruct (parentCtx s) eqn:Hp; simplify_eq/=.
    destruct (worker s) as [|e|[v|]|[|v|]|] eqn:Hw.
    + by rewrite HI.
    + destruct HI as (-> & view & [->| ->] & Hout);
        (split; [done|]); exists None; (split; [by left|done]).
    + destruct HI as (-> & view & [->| ->] & Hout);
        (split; [done|]); exists None; (split; [by left|done]).
    + destruct HI as (c0 & Hc & [?|(view & [->| ->] & Hout)]); [done| |];
        exists c0; rewrite Hc; (split; [done|]); right; exists None;
        (split; [by left|done]).
    + destruct HI as (c0 & Hc & [?|(view & [->| ->] & Hout)]); [done| |];
        exists c0; rewrite Hc; (split; [done|]); right; exists None;
        (split; [by left|done]).
    + done.
    + destruct HI as (-> & view & [->| ->] & Hout);
        (split; [done|]); exists None; (split; [by left|done]).
    + destruct HI as (-> & view & [->| ->] & Hout);
        (split; [done|]); exists None; (split; [by left|done]).
Qed.

Lemma single_Inv_run (fn : Task) tr s s' : run fn tr s = Some s' -> Inv fn s -> Inv fn s'.
Proof.
  revert s. induction tr as [|a tr IH]; intros s Hrun HI; simpl in Hrun.
  - by simplify_eq.
  - destruct (step fn a s) as [s1|] eqn:Hs; [|done].
    eapply IH; [done|]. by eapply single_Inv_step.
Qed.

(** Before its [cancel] the goroutine leaves the context to the parent. *)
Lemma uncommitted_ctx (fn : Task) s :
  Inv fn s -> committed (worker s) = false -> localCtx s = parentCtx s.
Proof.
  unfold Inv. intros HI Hc.
  destruct (worker s) as [|e|[v|]|[|v|]|]; simpl in Hc; try done; by destruct HI.
Qed.


End SingleInvFacts.

(** X1.  [Wait] on a single-task future has returned only if the parent
    context is canceled or the goroutine has its [cancel] behind it; the cause
    it reads is the parent's or the one the goroutine derived from the outcome
    of the task (called with a context that was open or canceled by the
    parent); and once the goroutine has made its [cancel], [Wait] returns. *)
Theorem NewGoture_Wait_only_after_commit (fn : Task) p tr s :
  Single.run fn tr (Single.NewGoture p) = Some s ->
  (forall r, Single.wait s = Some r ->
     Single.parentCtx s <> None \/ Single.committed (Single.worker s) = true) /\
  (forall c, Single.localCtx s = Some c ->
     Single.parentCtx s = Some c \/
     (Single.committed (Single.worker s) = true /\
      exists view, (view = None \/ view = Single.parentCtx s) /\
                   Single.outcome_cause (fn view) = Some c)) /\
  (Single.committed (Single.worker s) = true -> is_Some (Single.wait s)).
Proof.
  intros Hrun.
  pose proof (SingleInvFacts.single_Inv_run _ _ _ _ Hrun (SingleInvFacts.single_Inv_init fn p)) as HI.
  assert (forall c, Single.localCtx s = Some c ->
            Single.parentCtx s = Some c \/
            (Single.committed (Single.worker s) = true /\
             exists view, (view = None \/ view = Single.parentCtx s) /\
                          Single.outcome_cause (fn view) = Some c)) as Hctx.
  { intros c Hc. destruct (Single.committed (Single.worker s)) eqn:Hcm.
    - unfold Single.Inv in HI.
      destruct (Single.worker s) as [|e|[v|]|[|v|]|]; simpl in Hcm; try done;
        destruct HI as (c0 & Hc0 & [?|?]); simplify_eq; eauto.
    - left. by rewrite <-(SingleInvFacts.uncommitted_ctx _ _ HI Hcm). }
  split_and!.
  - intros r Hw. unfold Single.wait in Hw.
    destruct (Single.localCtx s) as [c|] eqn:Hc; [|done].
    destruct (Hctx c eq_refl) as [Hp|[? _]]; [left|by right]. by rewrite Hp.
  - done.
  - intros Hcm. unfold Single.Inv in HI. unfold Single.wait.
    destruct (Single.worker s) as [|e|[v|]|[|v|]|]; simpl in Hcm; try done;
      destruct HI as (c0 & -> & _); simpl; eauto.
Qed.

Lemma NewGoture_Wait_only_after_commit_witness :
  Single.parentCtx (Single.mkState None (Some (ErrorString "boom")) (Single.Deferred None))
  <> None \/
  Single.committed
    (Single.worker (Single.mkState None (Some (ErrorString "boom")) (Single.Deferred None)))
  = true.
Proof.
  refine (proj1 (NewGoture_Wait_only_after_commit
                   (fun _ => Returns (Some (ErrorString "boom"))) None
                   [Single.Worker; Single.Worker] _ _)
                (Some (ErrorString "boom")) _); reflexivity.
Defined.



(** X3.  A parent context canceled with cause [c] before the goroutine's
    [cancel], or already at the call of [NewGoture], decides the future:
    from then on [Wait] returns [c] (nil when [c] is a [SuccessResult] value),
    whatever the task returns or panics with afterwards. *)
Theorem NewGoture_parent_cancellation_wins (fn : Task) :
  (forall p tr1 s1 c tr2 s,
     Single.run fn tr1 (Single.NewGoture p) = Some s1 ->
     Single.parentCtx s1 = None ->
     Single.committed (Single.worker s1) = false ->
     Single.run fn (Single.ParentCancel c :: tr2) s1 = Some s ->
     Single.localCtx s = Some c /\
     Single.wait s = Some (if is_SuccessResult c then None else Some c)) /\
  (forall c tr s,
     Single.run fn tr (Single.NewGoture (Some c)) = Some s ->
     Single.localCtx s = Some c /\
     Single.wait s = Some (if is_SuccessResult c then None else Some c)).
Proof.
  split.
  - intros p tr1 s1 c tr2 s Hrun1 Hp Hcm Hrun2.
    pose proof (SingleInvFacts.single_Inv_run _ _ _ _ Hrun1 (SingleInvFacts.single_Inv_init fn p)) as HI.
    pose proof (SingleInvFacts.uncommitted_ctx _ _ HI Hcm) as Hctx.
    simpl in Hrun2. rewrite Hp in Hrun2. rewrite Hctx, Hp in Hrun2. simpl in Hrun2.
    assert (Single.localCtx s = Some c) as Hc
        by (by eapply SingleFacts.single_run_keeps_cause).
    unfold Single.wait. by rewrite Hc.
  - intros c tr s Hrun.
    assert (Single.localCtx s = Some c) as Hc
        by (by eapply SingleFacts.single_run_keeps_cause).
    unfold Single.wait. by rewrite Hc.
Qed.

Lemma NewGoture_parent_cancellation_wins_witness :
  Single.wait (Single.mkState (Some DeadlineExceeded) (Some DeadlineExceeded)
                              (Single.Gone Exited))
  = Some (Some DeadlineExceeded).
Proof.
  refine (proj2 (proj1 (NewGoture_parent_cancellation_wins
            (fun _ => Returns (Some (ErrorString "too late"))))
            None [Single.Worker]
            (Single.mkState None None (Single.Returned (Some (ErrorString "too late"))))
            DeadlineExceeded [Single.Worker; Single.Worker] _ _ _ _ _));
    reflexivity.
Defined.

(** ** [NewParallelGoture] *)

Module ParallelMoreFacts.
Import Parallel.

(** After the coordinator's commit the shared context carries the cause the
    coordinator chose or the parent's. *)
Lemma cause_origin p (tasks : list Task) tr s :
  length tasks <> 0 ->
  run tasks tr (NewParallelGoture p tasks) = Some s ->
  coordinator s = Some CoordGone ->
  localCtx s = cause_of (first_error (arrivals (events tasks tr (NewParallelGoture p tasks))))
  \/ localCtx s = parentCtx s.
Proof.
  intros HN Hrun.
  refine (proj2 (ParallelFacts.run_ind tasks
    (fun evs s => Inv tasks evs s /\
       (coordinator s = Some CoordGone ->
        localCtx s = cause_of (first_error (arrivals evs)) \/ localCtx s = parentCtx s))
    _ tr _ s _ Hrun)).
  - clear. intros evs s ev s' [HI Hc] Hst.
    split; [by eapply ParallelFacts.Inv_step|].
    pose proof (inv_coord _ _ _ HI) as Hco.
    destruct Hst as [k task Hk Ht|k e Hk Hroom|k v Hk Hroom|k Hk|k Hk
                    |i fe e rest Hcd Hi Hch|i fe Hcd Hi|c Hp];
      simpl; rewrite ?ParallelFacts.arrivals_app; simpl; rewrite ?app_nil_r; try done.
    + intros _. rewrite Hcd in Hco. destruct Hco as (_ & -> & _ & _ & ->).
      destruct (parentCtx s) as [c|]; [by right|left].
      apply ParallelFacts.cancel_cause_of.
    + intros Hcg. rewrite Hcg in Hco. destruct Hco as (_ & _ & _ & Hctx).
      left. rewrite (Hctx Hp). by destruct (first_error (arrivals evs)).
  - split; [by apply ParallelFacts.Inv_init|].
    unfold NewParallelGoture. by case_decide.
Qed.

(** With a parent canceled from the start, the shared context is canceled
    throughout and every task is called with it canceled. *)
Lemma canceled_from_start c (tasks : list Task) tr s :
  length tasks <> 0 ->
  run tasks tr (NewParallelGoture (Some c) tasks) = Some s ->
  parentCtx s = Some c /\ localCtx s = Some c /\
  forall k view,
    (k, view) ∈ calls (events tasks tr (NewParallelGoture (Some c) tasks)) ->
    view = Some c.
Proof.
  intros HN Hrun.
  refine (ParallelFacts.run_ind tasks
    (fun evs s => parentCtx s = Some c /\ localCtx s = Some c /\
                  forall k view, (k, view) ∈ calls evs -> view = Some c)
    _ tr _ s _ Hrun).
  - clear. intros evs s ev s' (Hp & Hc & Hv) Hst.
    destruct Hst; simpl; rewrite ?ParallelFacts.calls_app; simpl; rewrite ?app_nil_r;
      try (split_and!; [done|by rewrite ?Hc|done]).
    + split_and!; [done..|].
      intros j view [Hin|[= -> ->]%list_elem_of_singleton]%elem_of_app; [by eapply Hv|done].
    + congruence.
  - unfold NewParallelGoture. case_decide; [done|]. simpl. split_and!; [done..|].
    intros k view Hin. by apply elem_of_nil in Hin.
Qed.

End ParallelMoreFacts.

(** X4.  With [N >= 1] tasks, a parent context canceled with cause [c] while
    the coordinator is still in its loop decides the future: from then on
    [Wait] returns [c] (nil when [c] is a [SuccessResult] value), whatever the
    tasks report and the coordinator commits afterwards. *)
Theorem NewParallelGoture_parent_cancellation_wins p (tasks : list Task) tr1 s1 c tr2 s :
  length tasks <> 0 ->
  Parallel.run tasks tr1 (Parallel.NewParallelGoture p tasks) = Some s1 ->
  Parallel.parentCtx s1 = None ->
  Parallel.coordinator s1 <> Some Parallel.CoordGone ->
  Parallel.run tasks (Parallel.ParentCancel c :: tr2) s1 = Some s ->
  Parallel.localCtx s = Some c /\
  Parallel.wait s = Some (if is_SuccessResult c then None else Some c).
Proof.
  intros HN Hrun1 Hp Hco Hrun2.
  pose proof (Parallel.inv_coord _ _ _ (ParallelFacts.Inv_run _ _ _ _ HN Hrun1)) as HI.
  destruct (Parallel.coordinator s1) as [[i fe|]|]; [|done|done].
  destruct HI as (_ & _ & _ & _ & Hctx).
  simpl in Hrun2. rewrite Hp in Hrun2. rewrite Hctx, Hp in Hrun2. simpl in Hrun2.
  assert (Parallel.localCtx s = Some c) as Hc
      by (by eapply ParallelFacts.run_keeps_cause).
  unfold Parallel.wait. by rewrite Hc.
Qed.

Lemma NewParallelGoture_parent_cancellation_wins_witness :
  Parallel.wait
    (Parallel.mkState (Some Canceled) (Some Canceled)
       [Parallel.Deferred None] [] 1 (Some Parallel.CoordGone))
  = Some (Some Canceled).
Proof.
  refine (proj2 (NewParallelGoture_parent_cancellation_wins None
            [fun _ => Returns (Some (ErrorString "boom"))]
            [Parallel.Worker 0]
            (Parallel.mkState None None [Parallel.Sending (Some (ErrorString "boom"))]
               [] 1 (Some (Parallel.Draining 0 None)))
            Canceled
            [Parallel.Worker 0; Parallel.Coordinator; Parallel.Coordinator]
            _ _ _ _ _ _)); try reflexivity; discriminate.
Defined.

(** X5.  With [N >= 1] tasks and a parent context that is already canceled
    with cause [c] at the call, the constructor still starts all [N]
    goroutines and the coordinator; [Wait] returns at once and ever after,
    with [c], or with nil when [c] is a [SuccessResult] value; and every task
    that is called is called with the context canceled. *)
Theorem NewParallelGoture_canceled_parent_still_spawns c (tasks : list Task) tr s :
  length tasks <> 0 ->
  Parallel.run tasks tr (Parallel.NewParallelGoture (Some c) tasks) = Some s ->
  Parallel.spawned (Parallel.NewParallelGoture (Some c) tasks) = length tasks + 1 /\
  Parallel.spawned s = length tasks + 1 /\
  Parallel.wait (Parallel.NewParallelGoture (Some c) tasks)
  = Some (if is_SuccessResult c then None else Some c) /\
  Parallel.wait s = Some (if is_SuccessResult c then None else Some c) /\
  forall k view,
    (k, view) ∈ Parallel.calls
                  (Parallel.events tasks tr (Parallel.NewParallelGoture (Some c) tasks)) ->
    view = Some c.
Proof.
  intros HN Hrun.
  destruct (ParallelMoreFacts.canceled_from_start _ _ _ _ HN Hrun) as (Hp & Hc & Hv).
  pose proof (ParallelFacts.Inv_run _ _ _ _ HN Hrun) as HI.
  pose proof (Parallel.inv_coord _ _ _ HI) as Hco.
  split_and!.
  - unfold Parallel.NewParallelGoture. case_decide; [done|].
    unfold Parallel.spawned. simpl. by rewrite length_fmap.
  - unfold Parallel.spawned. rewrite (Parallel.inv_len _ _ _ HI).
    by destruct (Parallel.coordinator s).
  - unfold Parallel.NewParallelGoture. by case_decide.
  - unfold Parallel.wait. by rewrite Hc.
  - done.
Qed.

Lemma NewParallelGoture_canceled_parent_still_spawns_witness :
  Parallel.wait
    (Parallel.mkState (Some SuccessResult) (Some SuccessResult)
       [Parallel.Sending None; Parallel.Ready] [] 2 (Some (Parallel.Draining 0 None)))
  = Some None.
Proof.
  refine (proj1 (proj2 (proj2 (proj2
            (NewParallelGoture_canceled_parent_still_spawns SuccessResult
               [fun _ => Returns None; fun _ => Returns None]
               [Parallel.Worker 0] _ _ _))))); [discriminate|reflexivity].
Defined.

(** X6.  The completion channel is first in, first out: the reports received
    so far, followed by the buffer, are the values sent, in the order they
    were sent; once the coordinator is gone the buffer is empty, every
    goroutine has sent, and the order of arrival is the order of sending. *)
Theorem completion_channel_fifo p (tasks : list Task) tr s :
  length tasks <> 0 ->
  Parallel.run tasks tr (Parallel.NewParallelGoture p tasks) = Some s ->
  let evs := Parallel.events tasks tr (Parallel.NewParallelGoture p tasks) in
  (Parallel.sends evs).*2 = Parallel.arrivals evs ++ Parallel.completed s /\
  (Parallel.coordinator s = Some Parallel.CoordGone ->
     Parallel.completed s = [] /\
     Parallel.arrivals evs = (Parallel.sends evs).*2 /\
     forall k, k < length tasks -> exists e, (k, e) ∈ Parallel.sends evs).
Proof.
  intros HN Hrun evs. subst evs.
  pose proof (ParallelFacts.Inv_run _ _ _ _ HN Hrun) as HI.
  split; [apply (Parallel.inv_chan _ _ _ HI)|].
  apply (AggregateFacts.CoordGone_drained _ _ _ HI).
Qed.

Lemma completion_channel_fifo_witness :
  (Parallel.sends
     (Parallel.events [fun _ => Returns (Some (ErrorString "a")); fun _ => Returns None]
        [Parallel.Worker 1; Parallel.Worker 0; Parallel.Worker 1; Parallel.Worker 0;
         Parallel.Coordinator]
        (Parallel.NewParallelGoture None
           [fun _ => Returns (Some (ErrorString "a")); fun _ => Returns None]))).*2
  = Parallel.arrivals
      (Parallel.events [fun _ => Returns (Some (ErrorString "a")); fun _ => Returns None]
         [Parallel.Worker 1; Parallel.Worker 0; Parallel.Worker 1; Parallel.Worker 0;
          Parallel.Coordinator]
         (Parallel.NewParallelGoture None
            [fun _ => Returns (Some (ErrorString "a")); fun _ => Returns None]))
    ++ [Some (ErrorString "a")].
Proof.
  refine (proj1 (completion_channel_fifo None
            [fun _ => Returns (Some (ErrorString "a")); fun _ => Returns None]
            [Parallel.Worker 1; Parallel.Worker 0; Parallel.Worker 1; Parallel.Worker 0;
             Parallel.Coordinator]
            (Parallel.mkState None None [Parallel.Deferred None; Parallel.Deferred None]
               [Some (ErrorString "a")] 2 (Some (Parallel.Draining 1 None)))
            _ _)); [discriminate|reflexivity].
Defined.

(** X7.  [Wait] on a parallel future never invents an outcome.  A non-nil
    error it returns is the parent's cause or what some task, called in this
    run, returned or panicked with (converted).  A nil it returns means the
    parent was canceled with [SuccessResult{}], or the coordinator has
    committed and either every goroutine sent nil or one sent
    [SuccessResult{}].  And if every task returns nil, the parent context is
    open and the coordinator is gone, it returns nil. *)
Theorem NewParallelGoture_Wait_reports_a_task p (tasks : list Task) tr s :
  length tasks <> 0 ->
  Parallel.run tasks tr (Parallel.NewParallelGoture p tasks) = Some s ->
  let evs := Parallel.events tasks tr (Parallel.NewParallelGoture p tasks) in
  (forall e, Parallel.wait s = Some (Some e) ->
     Parallel.parentCtx s = Some e \/
     exists k (task : Task) view,
       tasks !! k = Some task /\ (k, view) ∈ Parallel.calls evs /\
       (task view = Returns (Some e) \/
        exists v, task view = Panics v /\ makeErrorFromPanic v = e)) /\
  (Parallel.wait s = Some None ->
     Parallel.parentCtx s = Some SuccessResult \/
     (Parallel.coordinator s = Some Parallel.CoordGone /\
      ((forall k r, (k, r) ∈ Parallel.sends evs -> r = None) \/
       exists k, (k, Some SuccessResult) ∈ Parallel.sends evs))) /\
  ((forall k (task : Task) view, tasks !! k = Some task -> task view = Returns None) ->
   Parallel.parentCtx s = None ->
   Parallel.coordinator s = Some Parallel.CoordGone ->
   Parallel.wait s = Some None).
Proof.
  intros HN Hrun evs. subst evs.
  pose proof (ParallelFacts.Inv_run _ _ _ _ HN Hrun) as HI.
  pose proof (Parallel.inv_coord _ _ _ HI) as Hco.
  assert (forall r, r ∈ Parallel.arrivals
                      (Parallel.events tasks tr (Parallel.NewParallelGoture p tasks)) ->
            exists k, (k, r) ∈ Parallel.sends
                        (Parallel.events tasks tr (Parallel.NewParallelGoture p tasks)))
    as Harr.
  { intros r Hr.
    assert (r ∈ (Parallel.sends
                   (Parallel.events tasks tr (Parallel.NewParallelGoture p tasks))).*2)
      as Hin by (rewrite (Parallel.inv_chan _ _ _ HI); apply elem_of_app; by left).
    apply list_elem_of_fmap in Hin as ([k r'] & -> & Hin). by exists k. }
  split_and!.
  - intros e Hw. unfold Parallel.wait in Hw.
    destruct (Parallel.localCtx s) as [c0|] eqn:Hc; [|done].
    assert (c0 = e /\ e <> SuccessResult) as [-> He]
        by (destruct c0; simpl in Hw; by simplify_eq).
    destruct (Parallel.coordinator s) as [[i fe|]|] eqn:Hcd; [| |done].
    { left. destruct Hco as (_ & _ & _ & _ & <-). done. }
    destruct (ParallelMoreFacts.cause_origin _ _ _ _ HN Hrun Hcd) as [Hor|Hor];
      [|left; by rewrite <-Hor].
    rewrite Hc in Hor.
    destruct (Parallel.first_error _) as [e'|] eqn:Hfe; simpl in Hor; simplify_eq.
    right. apply AggregateFacts.first_error_elem in Hfe.
    destruct (Harr _ Hfe) as [k Hin].
    destruct (Parallel.inv_sends _ _ _ HI k _ Hin) as (task & view & Ht & Hcall & Hrep).
    exists k, task, view. split_and!; [done..|].
    destruct (task view) as [r|v|]; simpl in Hrep; simplify_eq; eauto.
  - intros Hw. unfold Parallel.wait in Hw.
    destruct (Parallel.localCtx s) as [c0|] eqn:Hc; [|done].
    assert (c0 = SuccessResult) as -> by (destruct c0; simpl in Hw; by simplify_eq).
    destruct (Parallel.coordinator s) as [[i fe|]|] eqn:Hcd; [| |done].
    { left. destruct Hco as (_ & _ & _ & _ & <-). done. }
    destruct (ParallelMoreFacts.cause_origin _ _ _ _ HN Hrun Hcd) as [Hor|Hor];
      [|left; by rewrite <-Hor].
    right. split; [done|]. rewrite Hc in Hor.
    destruct (AggregateFacts.CoordGone_drained _ _ _ HI Hcd) as (_ & Heq & _).
    destruct (Parallel.first_error _) as [e'|] eqn:Hfe; simpl in Hor; simplify_eq.
    + right. apply AggregateFacts.first_error_elem in Hfe. by apply Harr.
    + left. intros k r Hin. apply AggregateFacts.first_error_None in Hfe.
      rewrite Heq in Hfe. rewrite Forall_forall in Hfe. symmetry. apply Hfe.
      apply list_elem_of_fmap. by exists (k, r).
  - intros Hall Hp Hcd. rewrite Hcd in Hco. destruct Hco as (_ & _ & _ & Hctx).
    unfold Parallel.wait. rewrite (Hctx Hp).
    assert (Parallel.first_error
              (Parallel.arrivals
                 (Parallel.events tasks tr (Parallel.NewParallelGoture p tasks))) = None)
      as ->; [|done].
    apply AggregateFacts.first_error_None, Forall_forall. intros r Hr.
    destruct (Harr r Hr) as [k Hin].
    destruct (Parallel.inv_sends _ _ _ HI k _ Hin) as (task & view & Ht & _ & Hrep).
    rewrite (Hall k task view Ht) in Hrep. simpl in Hrep. by simplify_eq.
Qed.

Lemma NewParallelGoture_Wait_reports_a_task_witness :
  Parallel.wait
    (Parallel.mkState None (Some SuccessResult)
       [Parallel.Deferred None; Parallel.Deferred None] [] 2 (Some Parallel.CoordGone))
  = Some None.
Proof.
  pose proof (NewParallelGoture_Wait_reports_a_task None
       [fun _ => Returns None; fun _ => Returns None]
       [Parallel.Worker 0; Parallel.Worker 1; Parallel.Worker 1; Parallel.Worker 0;
        Parallel.Coordinator; Parallel.Coordinator; Parallel.Coordinator]
       (Parallel.mkState None (Some SuccessResult)
          [Parallel.Deferred None; Parallel.Deferred None] [] 2 (Some Parallel.CoordGone)))
    as H.
  assert (length [fun _ : option err => Returns None; fun _ => Returns None] <> 0) as HN
      by (simpl; discriminate).
  destruct (H HN eq_refl) as (_ & _ & Hall).
  refine (Hall _ eq_refl eq_refl).
  intros [|[|k]] task view Ht; simpl in Ht; [by injection Ht as <-..|discriminate].
Defined.



(** X9.  If one task always fails with the same error [E] (returned, or
    panicked with and converted), [E] is not a [SuccessResult] value, and all
    other tasks always return nil, then in whatever order the goroutines run,
    once the coordinator has committed with the parent context open, [Wait]
    returns exactly [E]. *)
Theorem NewParallelGoture_single_failure p (tasks : list Task) j (failing : Task) E tr1 s1 tr2 s :
  tasks !! j = Some failing ->
  (forall view, Parallel.report (failing view) = Some (Some E)) ->
  E <> SuccessResult ->
  (forall k (task : Task) view, k <> j -> tasks !! k = Some task -> task view = Returns None) ->
  Parallel.run tasks tr1 (Parallel.NewParallelGoture p tasks) = Some s1 ->
  Parallel.coordinator s1 = Some Parallel.CoordGone ->
  Parallel.parentCtx s1 = None ->
  Parallel.run tasks tr2 s1 = Some s ->
  Parallel.wait s = Some (Some E).
Proof.
  intros Hj Hfail HE Hothers Hrun1 Hc Hp Hrun2.
  assert (length tasks <> 0) as HN by (apply lookup_lt_Some in Hj; lia).
  pose proof (ParallelFacts.Inv_run _ _ _ _ HN Hrun1) as HI.
  destruct (AggregateFacts.CoordGone_drained _ _ _ HI Hc) as (_ & Heq & Hsent).
  pose proof (AggregateFacts.commit_decides _ _ _ _ _ _ HN Hrun1 Hc Hp Hrun2) as Hctx.
  assert (Parallel.first_error
            (Parallel.arrivals
               (Parallel.events tasks tr1 (Parallel.NewParallelGoture p tasks))) = Some E)
    as Hfe.
  { apply AggregateFacts.first_error_only; rewrite Heq.
    - destruct (Hsent j) as [e Hin]; [by eapply lookup_lt_Some|].
      destruct (Parallel.inv_sends _ _ _ HI j e Hin) as (task & view & Ht & _ & Hrep).
      simplify_eq. rewrite Hfail in Hrep. simplify_eq.
      apply list_elem_of_fmap. by exists (j, Some E).
    - intros r ([k r'] & -> & Hin)%list_elem_of_fmap. simpl.
      destruct (Parallel.inv_sends _ _ _ HI k r' Hin) as (task & view & Ht & _ & Hrep).
      destruct (decide (k = j)) as [->|Hne].
      + simplify_eq. right. rewrite Hfail in Hrep. by simplify_eq.
      + left. rewrite (Hothers k task view Hne Ht) in Hrep. simpl in Hrep. by simplify_eq. }
  unfold Parallel.wait. rewrite Hctx, Hfe. simpl. by destruct E.
Qed.

Lemma NewParallelGoture_single_failure_witness :
  Parallel.wait
    (Parallel.mkState None (Some (ErrorString "oops"))
       [Parallel.Gone Exited; Parallel.Gone Exited] [] 2 (Some Parallel.CoordGone))
  = Some (Some (ErrorString "oops")).
Proof.
  refine (NewParallelGoture_single_failure None
            [fun _ => Returns None; fun _ => Panics (AnyString "oops")]
            1 (fun _ => Panics (AnyString "oops")) (ErrorString "oops")
            [Parallel.Worker 1; Parallel.Worker 0; Parallel.Worker 0; Parallel.Worker 1;
             Parallel.Coordinator; Parallel.Coordinator; Parallel.Coordinator]
            (Parallel.mkState None (Some (ErrorString "oops"))
               [Parallel.Deferred None; Parallel.Gone Exited] [] 2
               (Some Parallel.CoordGone))
            [Parallel.Worker 0] _ _ _ _ _ _ _ _ _); try reflexivity; try discriminate.
  intros [|[|k]] task view Hne Ht; simpl in Ht; [by injection Ht as <-|done|discriminate].
Defined.

(** X10.  A parallel future of one task treats the outcome of its task as
    the single-task future does.  For a task whose outcome depends only on the
    context it is given, and with the parent context open at the commit: the
    task does not end its goroutine with [runtime.Goexit], [Wait] has returned
    on both futures, and it returns nil on both or a non-nil error on both,
    the two errors having the same [Error()] text.  (Whether the two are the
    same error value is not claimed: each future formats a panic value of its
    own.) *)
Theorem NewParallelGoture_of_one_task (fn : Task) tr s tr1 s1 tr2 s2 :
  Single.run fn (Single.Worker :: Single.Worker :: tr) (Single.NewGoture None) = Some s ->
  Parallel.run [fn] tr1 (Parallel.NewParallelGoture None [fn]) = Some s1 ->
  Parallel.coordinator s1 = Some Parallel.CoordGone ->
  Parallel.parentCtx s1 = None ->
  Parallel.run [fn] tr2 s1 = Some s2 ->
  fn None <> Goexits /\
  exists r2 r1,
    Parallel.wait s2 = Some r2 /\ Single.wait s = Some r1 /\
    (r2 = None <-> r1 = None) /\
    err_message <$> r2 = err_message <$> r1.
Proof.
  intros Hrun Hrun1 Hc Hp Hrun2.
  assert (length [fn] <> 0) as HN by done.
  pose proof (ParallelFacts.Inv_run _ _ _ _ HN Hrun1) as HI.
  destruct (AggregateFacts.CoordGone_drained _ _ _ HI Hc) as (_ & Heq & Hsent).
  destruct (ParallelFacts.CoordGone_all_sent _ _ _ HI Hc) as (Hlen & _).
  pose proof (AggregateFacts.commit_decides _ _ _ _ _ _ HN Hrun1 Hc Hp Hrun2) as Hctx.
  destruct (Hsent 0) as [e Hin]; [simpl; lia|].
  destruct (Parallel.inv_sends _ _ _ HI 0 e Hin) as (task & view & Ht & Hcall & Hrep).
  simpl in Ht. simplify_eq.
  assert (view = None) as ->.
  { destruct (Parallel.inv_calls _ _ _ HI _ _ Hcall) as [?|?]; congruence. }
  assert (Parallel.sends (Parallel.events [task] tr1 (Parallel.NewParallelGoture None [task]))
          = [(0, e)]) as Hs.
  { destruct (Parallel.sends _) as [|x [|y l]]; simpl in Hlen; try done.
    by apply list_elem_of_singleton in Hin as ->. }
  rewrite Heq, Hs in Hctx. simpl in Hctx.
  assert (exists c, Parallel.localCtx s2 = Some c /\ Single.localCtx s = Some c) as (c & Hpar & Hsin).
  { destruct (task None) as [r|v|] eqn:Hout; simpl in Hrep; [| |done];
      injection Hrep as <-.
    - rewrite (SingleFacts.commit_of_return _ _ _ _ Hout Hrun), Hctx.
      destruct r; simpl; eauto.
    - rewrite (SingleFacts.commit_of_panic _ _ _ _ Hout Hrun), Hctx. simpl. eauto. }
  split.
  { intros Hout. by rewrite Hout in Hrep. }
  unfold Parallel.wait, Single.wait. rewrite Hpar, Hsin. simpl.
  eexists _, _. split_and!; [done..| |done]. done.
Qed.

Lemma NewParallelGoture_of_one_task_witness :
  exists r2 r1,
    Parallel.wait
      (Parallel.mkState (Some Canceled) (Some (ErrorString "7"))
         [Parallel.Gone Exited] [] 1 (Some Parallel.CoordGone)) = Some r2 /\
    Single.wait (Single.mkState None (Some (ErrorString "7")) (Single.Gone Exited)) = Some r1 /\
    (r2 = None <-> r1 = None) /\
    err_message <$> r2 = err_message <$> r1.
Proof.
  refine (proj2 (NewParallelGoture_of_one_task (fun _ => Panics (AnyInt 7))
            [] _
            [Parallel.Worker 0; Parallel.Worker 0; Parallel.Coordinator; Parallel.Coordinator]
            (Parallel.mkState None (Some (ErrorString "7"))
               [Parallel.Gone Exited] [] 1 (Some Parallel.CoordGone))
            [Parallel.ParentCancel Canceled] _ _ _ _ _ _)); reflexivity.
Defined.

(** ** [helper.go] *)

(** X11.  [makeErrorFromPanic] gives an error whose [Error()] text is the [%v]
    text of the panic value, converting its own result again changes nothing,
    and both deferred helpers use exactly this conversion: [recoverCancel]
    cancels with it, [recoverCancelForParallel] sends it, and each stops the
    panic. *)
Theorem makeErrorFromPanic_is_the_conversion (r : any) :
  err_message (makeErrorFromPanic r) = fmt_v r /\
  makeErrorFromPanic (AnyError (makeErrorFromPanic r)) = makeErrorFromPanic r /\
  (forall c, recoverCancel (Some r) c = (cancel (Some (makeErrorFromPanic r)) c, Exited)) /\
  recoverCancelForParallel (Some r) = (Some (Some (makeErrorFromPanic r)), Exited).
Proof.
  split_and!.
  - by destruct r.
  - done.
  - intros c. apply recoverCancel_panic.
  - apply recoverCancelForParallel_panic.
Qed.
